(** * Contact-form validator (src/contact.ts): model and properties

    The validator of the contact page is a class with three static
    constants (two regular expressions and a minimum length), four field
    predicates, the aggregate [validateForm], and the per-field check
    [validateField] of the [ContactForm] controller.

    The development also covers the rest of the [ContactForm] controller
    (submission, storage, hints), the character counter of the contact
    page, the task manager of the home page and the skills form of the
    team page.

    JavaScript strings are sequences of UTF-16 code units; regular
    expressions without the [u] flag, [trim] and [length] all work on code
    units, so a string is modelled as a list of code units. *)

From Stdlib Require Import NArith ZArith Ascii String DecimalString.
From stdpp Require Import base list gmap.

Local Open Scope N_scope.

(** ** Strings *)

Definition jsstring := list N.

(** A string literal of the source (ASCII only). *)
Definition lit (s : string) : jsstring :=
  map N_of_ascii (list_ascii_of_string s).

(** One-character literal, for the characters named in the patterns. *)
Definition chr (a : ascii) : N := N_of_ascii a.

(** ECMAScript WhiteSpace and LineTerminator code points: the characters
    removed by [String.prototype.trim] and matched by [\s]. *)
Definition isWhiteSpace (c : N) : bool :=
  (c =? 0x09) || (c =? 0x0A) || (c =? 0x0B) || (c =? 0x0C) || (c =? 0x0D)
  || (c =? 0x20) || (c =? 0xA0) || (c =? 0x1680)
  || ((0x2000 <=? c) && (c <=? 0x200A))
  || (c =? 0x2028) || (c =? 0x2029) || (c =? 0x202F) || (c =? 0x205F)
  || (c =? 0x3000) || (c =? 0xFEFF).

(** [\d]: the ten ASCII digits. *)
Definition isDigit (c : N) : bool := (0x30 <=? c) && (c <=? 0x39).

Fixpoint dropWhile {A} (p : A -> bool) (l : list A) : list A :=
  match l with
  | [] => []
  | x :: l' => if p x then dropWhile p l' else l
  end.

Definition trimStart (s : jsstring) : jsstring := dropWhile isWhiteSpace s.
Definition trimEnd (s : jsstring) : jsstring := rev (dropWhile isWhiteSpace (rev s)).

(** [s.trim()] *)
Definition trim (s : jsstring) : jsstring := trimEnd (trimStart s).

(** ToBoolean on a string: only the empty string is falsy. *)
Definition truthy (s : jsstring) : bool :=
  match s with [] => false | _ :: _ => true end.

(** Number-to-string conversion of a non-negative integer, as a template
    literal performs it (plain decimal digits, which is what JavaScript
    prints for integers below 10^21). *)
Definition NumberToString (n : nat) : jsstring :=
  lit (NilZero.string_of_uint (Nat.to_uint n)).

(** ** Regular expressions *)

(** Members of a character class [[...]]. *)
Inductive ClassAtom : Type :=
  | ClassChar (c : N)   (* a character, possibly identity-escaped: @ \- \+ \( \) *)
  | ClassDigit          (* \d *)
  | ClassSpace.         (* \s *)

Definition atom_matches (a : ClassAtom) (c : N) : bool :=
  match a with
  | ClassChar x => c =? x
  | ClassDigit => isDigit c
  | ClassSpace => isWhiteSpace c
  end.

(** [[atoms]] when [negated] is false, [[^atoms]] when it is true. *)
Definition class_matches (negated : bool) (atoms : list ClassAtom) (c : N) : bool :=
  xorb negated (existsb (fun a => atom_matches a c) atoms).

Inductive regex : Type :=
  | Void                                            (* matches nothing *)
  | Eps                                             (* the empty pattern *)
  | Char (c : N)                                    (* a pattern character *)
  | Class (negated : bool) (atoms : list ClassAtom) (* a character class *)
  | Seq (r1 r2 : regex)                             (* r1r2 *)
  | Alt (r1 r2 : regex)                             (* r1|r2 *)
  | Star (r : regex)                                (* r* *)
  | Plus (r : regex).                               (* r+ *)

(** The strings a pattern matches in full. *)
Inductive lang : regex -> jsstring -> Prop :=
  | L_Eps : lang Eps []
  | L_Char c : lang (Char c) [c]
  | L_Class negated atoms c :
      class_matches negated atoms c = true -> lang (Class negated atoms) [c]
  | L_Seq r1 r2 s1 s2 : lang r1 s1 -> lang r2 s2 -> lang (Seq r1 r2) (s1 ++ s2)
  | L_AltL r1 r2 s : lang r1 s -> lang (Alt r1 r2) s
  | L_AltR r1 r2 s : lang r2 s -> lang (Alt r1 r2) s
  | L_StarNil r : lang (Star r) []
  | L_StarApp r s1 s2 : lang r s1 -> lang (Star r) s2 -> lang (Star r) (s1 ++ s2)
  | L_Plus r s1 s2 : lang r s1 -> lang (Star r) s2 -> lang (Plus r) (s1 ++ s2).

(** Matching by derivatives. *)
Fixpoint nullable (r : regex) : bool :=
  match r with
  | Void => false
  | Eps => true
  | Char _ => false
  | Class _ _ => false
  | Seq r1 r2 => nullable r1 && nullable r2
  | Alt r1 r2 => nullable r1 || nullable r2
  | Star _ => true
  | Plus r => nullable r
  end.

Fixpoint deriv (c : N) (r : regex) : regex :=
  match r with
  | Void => Void
  | Eps => Void
  | Char x => if c =? x then Eps else Void
  | Class negated atoms => if class_matches negated atoms c then Eps else Void
  | Seq r1 r2 =>
      if nullable r1 then Alt (Seq (deriv c r1) r2) (deriv c r2)
      else Seq (deriv c r1) r2
  | Alt r1 r2 => Alt (deriv c r1) (deriv c r2)
  | Star r => Seq (deriv c r) (Star r)
  | Plus r => Seq (deriv c r) (Star r)
  end.

Fixpoint matchb (r : regex) (s : jsstring) : bool :=
  match s with
  | [] => nullable r
  | c :: s' => matchb (deriv c r) s'
  end.

(** A RegExp object: the pattern between [^] and [$] (both patterns of the
    validator are anchored at both ends and carry no [m] flag), the [g] and
    [y] flags, and the mutable [lastIndex] property. *)
Record RegExp : Type := mkRegExp {
  body : regex;
  global : bool;
  sticky : bool;
  lastIndex : nat
}.

Definition set_lastIndex (i : nat) (R : RegExp) : RegExp :=
  {| body := body R; global := global R; sticky := sticky R; lastIndex := i |}.

(** [R.test(S)], after RegExpBuiltinExec. The search starts at [lastIndex]
    when [g] or [y] is set and at 0 otherwise; [^] only matches at index 0
    and [$] only at the end, so a match exists exactly when the search
    starts at 0 and the body matches all of [S]. [lastIndex] is written
    only when [g] or [y] is set. *)
Definition test (R : RegExp) (S : jsstring) : bool * RegExp :=
  let flagged := global R || sticky R in
  let start := if flagged then lastIndex R else 0%nat in
  let found := Nat.eqb start 0 && matchb (body R) S in
  (found,
   if flagged then set_lastIndex (if found then length S else 0%nat) R else R).

(** ** Data model (src/types.ts, src/contact.ts) *)

(** [interface ContactFormData]; [phone?: string] is absent ([None]) or a
    string. *)
Record ContactFormData : Type := mkContactFormData {
  name : jsstring;
  email : jsstring;
  message : jsstring;
  phone : option jsstring
}.

Record ValidationResult : Type := mkValidationResult {
  isValid : bool;
  errors : list jsstring
}.

(** The static properties of [class ContactFormValidator]. The properties
    are [readonly], but the two RegExp objects they hold are mutable
    objects shared by all calls, so the static methods are modelled as
    computations over this record. *)
Record Statics : Type := mkStatics {
  EMAIL_REGEX : RegExp;
  PHONE_REGEX : RegExp;
  MIN_MESSAGE_LENGTH : nat
}.

(** State-passing computations over the class. The methods contain no
    [throw], and the built-ins they call ([test], [trim], [length],
    [push]) do not throw on strings, so a computation has no exceptional
    outcome: it returns a value and the class it leaves behind. *)
Definition M (A : Type) : Type := Statics -> A * Statics.

Definition ret {A} (a : A) : M A := fun this => (a, this).

Definition bind {A B} (c : M A) (k : A -> M B) : M B :=
  fun this => let (a, this') := c this in k a this'.

Definition get : M Statics := fun this => (this, this).

Notation "x <- c ;; k" := (bind c (fun x => k))
  (at level 100, c at next level, right associativity).

(** The value a computation returns, and the class it leaves behind. *)
Definition result {A} (c : M A) (this : Statics) : A := fst (c this).
Definition after {A} (c : M A) (this : Statics) : Statics := snd (c this).

(** [errors.push(m)] *)
Definition push (errors : list jsstring) (m : jsstring) : list jsstring :=
  errors ++ [m].

Module ContactFormValidator.

(** [/^[^\s@]+@[^\s@]+\.[^\s@]+$/] *)
Definition email_segment : regex := Plus (Class true [ClassSpace; ClassChar (chr "@")]).

Definition email_pattern : regex :=
  Seq email_segment
    (Seq (Char (chr "@"))
       (Seq email_segment
          (Seq (Char (chr ".")) email_segment))).

(** [/^[\d\s\-\+\(\)]+$/] *)
Definition phone_pattern : regex :=
  Plus (Class false [ClassDigit; ClassSpace; ClassChar (chr "-");
                     ClassChar (chr "+"); ClassChar (chr "(");
                     ClassChar (chr ")")]).

(** The class with its minimum message length set to [n]; neither
    regular expression literal has a flag. *)
Definition configured (n : nat) : Statics :=
  {| EMAIL_REGEX := mkRegExp email_pattern false false 0;
     PHONE_REGEX := mkRegExp phone_pattern false false 0;
     MIN_MESSAGE_LENGTH := n |}.

(** The class as the source declares it. *)
Definition class : Statics := configured 10.

Definition validateEmail (email : jsstring) : M bool :=
  fun this =>
    let (r, R) := test (EMAIL_REGEX this) email in
    (r, {| EMAIL_REGEX := R; PHONE_REGEX := PHONE_REGEX this;
           MIN_MESSAGE_LENGTH := MIN_MESSAGE_LENGTH this |}).

Definition validatePhone (phone : jsstring) : M bool :=
  if Nat.eqb (length phone) 0 then ret true
  else
    fun this =>
      let (r, R) := test (PHONE_REGEX this) phone in
      (r, {| EMAIL_REGEX := EMAIL_REGEX this; PHONE_REGEX := R;
             MIN_MESSAGE_LENGTH := MIN_MESSAGE_LENGTH this |}).

Definition validateName (name : jsstring) : M bool :=
  ret (Nat.leb 2 (length (trim name))).

Definition validateMessage (message : jsstring) : M bool :=
  this <- get ;;
  ret (Nat.leb (MIN_MESSAGE_LENGTH this) (length (trim message))).

(** The four texts pushed by [validateForm]. *)
Definition nameError : jsstring := lit "Name must be at least 2 characters long".
Definition emailError : jsstring := lit "Please enter a valid email address".
Definition phoneError : jsstring := lit "Please enter a valid phone number".
Definition messageError (min : nat) : jsstring :=
  lit "Message must be at least " ++ NumberToString min ++ lit " characters long".

(** [data.phone && !this.validatePhone(data.phone)]: the right operand is
    evaluated only for a present, non-empty phone. *)
Definition phoneFails (phone : option jsstring) : M bool :=
  match phone with
  | None => ret false
  | Some p =>
      if truthy p then (ok <- validatePhone p ;; ret (negb ok)) else ret false
  end.

Definition validateForm (data : ContactFormData) : M ValidationResult :=
  let errors : list jsstring := [] in
  okName <- validateName (name data) ;;
  let errors := if negb okName then push errors nameError else errors in
  okEmail <- validateEmail (email data) ;;
  let errors := if negb okEmail then push errors emailError else errors in
  badPhone <- phoneFails (phone data) ;;
  let errors := if badPhone then push errors phoneError else errors in
  okMessage <- validateMessage (message data) ;;
  this <- get ;;
  let errors :=
    if negb okMessage then push errors (messageError (MIN_MESSAGE_LENGTH this))
    else errors in
  ret {| isValid := Nat.eqb (length errors) 0; errors := errors |}.

End ContactFormValidator.

(** What [localStorage.getItem(key)] gives back to the two controllers:
    no item (or an empty string, which is falsy as well), a text that
    [JSON.parse] rejects, or the JSON text of a list that the controller
    wrote with [JSON.stringify] (strings, booleans, numbers and dates
    written this way are read back unchanged). *)
Inductive StorageItem (A : Type) : Type :=
  | Missing
  | Corrupt
  | Json (items : list A).

Arguments Missing {A}.
Arguments Corrupt {A}.
Arguments Json {A} items.

Module ContactForm.
Import ContactFormValidator.

(** The four texts shown next to a field by [validateField]. *)
Definition nameError : jsstring := lit "Name must be at least 2 characters".
Definition emailError : jsstring := lit "Invalid email address".
Definition phoneError : jsstring := lit "Invalid phone number".
Definition messageError (min : nat) : jsstring :=
  lit "Message must be at least " ++ NumberToString min ++ lit " characters".

(** [validateField(field)], on [field.id] and [field.value]. The method
    ends by showing the message ([showFieldError], here [Some]) or by
    clearing the field's error ([clearFieldError], here [None]). *)
Definition validateField (id value : jsstring) : M (option jsstring) :=
  let errorMessage : jsstring := [] in
  errorMessage <-
    (if decide (id = lit "contactName") then
       ok <- validateName value ;;
       ret (if negb ok then nameError else errorMessage)
     else if decide (id = lit "contactEmail") then
       ok <- validateEmail value ;;
       ret (if negb ok then emailError else errorMessage)
     else if decide (id = lit "contactPhone") then
       (if truthy value then
          ok <- validatePhone value ;;
          ret (if negb ok then phoneError else errorMessage)
        else ret errorMessage)
     else if decide (id = lit "contactMessage") then
       ok <- validateMessage value ;;
       this <- get ;;
       ret (if negb ok then messageError (MIN_MESSAGE_LENGTH this)
            else errorMessage)
     else ret errorMessage) ;;
  ret (if truthy errorMessage then Some errorMessage else None).

(** The children of the [formErrors] container: the box written by
    [showFormErrors] and the message appended by [showSuccess] (the timer
    that removes the message after three seconds is not modelled). *)
Inductive FormErrorsChild : Type :=
  | ErrorBox (errors : list jsstring)
  | SuccessMessage.

(** A [ContactForm] instance with the parts of the page and of the browser
    it reads and writes: its [submissions] array, the [contactSubmissions]
    item of [localStorage], the children of the [formErrors] container,
    the number shown in [submissionCount] ([None] while the controller has
    not written it), and the error hints next to the fields: [fieldErrors]
    maps the identifier of a field to the text of the [field-error]
    element in its parent, for the fields that have one (these are the
    fields that carry the [error] class). The elements are taken to exist
    in the page, each field in a parent of its own. *)
Record State : Type := mkState {
  submissions : list ContactFormData;
  contactSubmissions : StorageItem ContactFormData;
  formErrors : list FormErrorsChild;
  submissionCount : option nat;
  fieldErrors : gmap (list N) (list N)
}.

Definition updateSubmissionCount (st : State) : State :=
  {| submissions := submissions st;
     contactSubmissions := contactSubmissions st;
     formErrors := formErrors st;
     submissionCount := Some (length (submissions st));
     fieldErrors := fieldErrors st |}.

(** [saveSubmission(data)]: a frozen copy is pushed, the whole array is
    written to [localStorage], the count is refreshed. *)
Definition saveSubmission (data : ContactFormData) (st : State) : State :=
  let readonlyData := data in
  let submissions' := submissions st ++ [readonlyData] in
  updateSubmissionCount
    {| submissions := submissions';
       contactSubmissions := Json submissions';
       formErrors := formErrors st;
       submissionCount := submissionCount st;
       fieldErrors := fieldErrors st |}.

(** [loadSubmissions()]: a missing item is skipped, a parse error is caught
    and logged. *)
Definition loadSubmissions (st : State) : State :=
  match contactSubmissions st with
  | Json stored =>
      updateSubmissionCount
        {| submissions := stored;
           contactSubmissions := contactSubmissions st;
           formErrors := formErrors st;
           submissionCount := submissionCount st;
           fieldErrors := fieldErrors st |}
  | Missing | Corrupt => st
  end.

(** [clearFieldError(field)] *)
Definition clearFieldError (field : jsstring) (st : State) : State :=
  {| submissions := submissions st;
     contactSubmissions := contactSubmissions st;
     formErrors := formErrors st;
     submissionCount := submissionCount st;
     fieldErrors := delete field (fieldErrors st) |}.

(** [showFieldError(field, message)]: an existing hint is removed before
    the new one is appended. *)
Definition showFieldError (field message : jsstring) (st : State) : State :=
  let st := clearFieldError field st in
  {| submissions := submissions st;
     contactSubmissions := contactSubmissions st;
     formErrors := formErrors st;
     submissionCount := submissionCount st;
     fieldErrors := <[field := message]> (fieldErrors st) |}.

(** The [blur] listener: [validateField] on the field, whose outcome is
    shown or cleared. *)
Definition blurListener (field value : jsstring) (st : State) : M State :=
  outcome <- validateField field value ;;
  ret (match outcome with
       | Some errorMessage => showFieldError field errorMessage st
       | None => clearFieldError field st
       end).

(** The [focus] listener. *)
Definition focusListener (field : jsstring) (st : State) : State :=
  clearFieldError field st.

Definition showFormErrors (errors : list jsstring) (st : State) : State :=
  {| submissions := submissions st;
     contactSubmissions := contactSubmissions st;
     formErrors := [ErrorBox errors];
     submissionCount := submissionCount st;
     fieldErrors := fieldErrors st |}.

(** [clearAllErrors()]: the container is emptied and every hint of the
    form is removed. *)
Definition clearAllErrors (st : State) : State :=
  {| submissions := submissions st;
     contactSubmissions := contactSubmissions st;
     formErrors := [];
     submissionCount := submissionCount st;
     fieldErrors := ∅ |}.

Definition showSuccess (st : State) : State :=
  {| submissions := submissions st;
     contactSubmissions := contactSubmissions st;
     formErrors := formErrors st ++ [SuccessMessage];
     submissionCount := submissionCount st;
     fieldErrors := fieldErrors st |}.

(** [handleSubmit()], on the values of the four inputs (the values are
    not part of [State], so the final [reset()] of the form leaves no
    trace here). *)
Definition handleSubmit
    (contactName contactEmail contactMessage contactPhone : jsstring)
    (st : State) : M State :=
  let formData :=
    {| name := contactName; email := contactEmail;
       message := contactMessage; phone := Some contactPhone |} in
  validation <- validateForm formData ;;
  let st := clearAllErrors st in
  if negb (isValid validation) then ret (showFormErrors (errors validation) st)
  else
    let st := saveSubmission formData st in
    let st := showSuccess st in
    ret st.

(** [new ContactForm(formId)] for a form that exists, on a page whose
    storage item, error container, counter and hints are as given. *)
Definition new (item : StorageItem ContactFormData)
    (container : list FormErrorsChild) (counter : option nat)
    (hints : gmap (list N) (list N)) : State :=
  loadSubmissions
    {| submissions := [];
       contactSubmissions := item;
       formErrors := container;
       submissionCount := counter;
       fieldErrors := hints |}.

(** The values of the four inputs at a submit event. *)
Record Inputs : Type := mkInputs {
  contactName : jsstring;
  contactEmail : jsstring;
  contactMessage : jsstring;
  contactPhone : jsstring
}.

(** The form data [handleSubmit] builds from the inputs. *)
Definition formDataOf (i : Inputs) : ContactFormData :=
  {| name := contactName i; email := contactEmail i;
     message := contactMessage i; phone := Some (contactPhone i) |}.

(** The events [setupEventListeners] listens to: a submit of the form, a
    blur of a field (with its identifier and its value at that time), a
    focus of a field. *)
Inductive Event : Type :=
  | SubmitForm (inputs : Inputs)
  | Blur (field value : jsstring)
  | Focus (field : jsstring).

Definition handle (e : Event) (st : State) : M State :=
  match e with
  | SubmitForm i =>
      handleSubmit (contactName i) (contactEmail i) (contactMessage i)
        (contactPhone i) st
  | Blur field value => blurListener field value st
  | Focus field => ret (focusListener field st)
  end.

(** A sequence of events, oldest first. *)
Fixpoint handleAll (events : list Event) (st : State) : M State :=
  match events with
  | [] => ret st
  | e :: rest => st' <- handle e st ;; handleAll rest st'
  end.


(** The hint [validateField] shows next to a field. *)
Definition hintOf (min : nat) (field : jsstring) : option jsstring :=
  if decide (field = lit "contactName") then Some nameError
  else if decide (field = lit "contactEmail") then Some emailError
  else if decide (field = lit "contactPhone") then Some phoneError
  else if decide (field = lit "contactMessage") then Some (messageError min)
  else None.

End ContactForm.

(** ** The task manager (src/home.ts) *)

Module TaskManagerApp.

(** [interface Task]. Identifiers are the integers handed out by
    [addTask]; [createdAt] is the time value of the [Date]; [priority] is
    the string of the [Priority] enum. *)
Record Task : Type := mkTask {
  id : nat;
  title : jsstring;
  description : jsstring;
  completed : bool;
  createdAt : N;
  priority : jsstring
}.

(** What [renderTasks] leaves in the [taskList] element: the "No tasks to
    display" paragraph, or one item per task. *)
Inductive TaskListView : Type :=
  | NoTasks
  | Items (shown : list Task).

(** A [TaskManagerApp] instance with the parts of the page and of the
    browser it reads and writes: the [tasks] item of [localStorage], the
    content of [taskList], and the two numbers of [taskCounter] ([None]
    while the app has not written it). The elements are taken to exist in
    the page. *)
Record App : Type := mkApp {
  tasks : list Task;
  nextId : nat;
  storage : StorageItem Task;
  taskList : TaskListView;
  taskCounter : option (nat * nat)
}.

Definition isActive (t : Task) : bool := negb (completed t).

(** [localStorage.setItem('tasks', JSON.stringify(this.tasks))] *)
Definition saveTasksToStorage (a : App) : App :=
  {| tasks := tasks a; nextId := nextId a; storage := Json (tasks a);
     taskList := taskList a; taskCounter := taskCounter a |}.

(** [filterTasks(status)]; any status other than the two named ones takes
    the [default] branch. *)
Definition filterTasks (status : jsstring) (a : App) : list Task :=
  if decide (status = lit "active") then List.filter isActive (tasks a)
  else if decide (status = lit "completed") then List.filter completed (tasks a)
  else tasks a.

(** [updateCounter()]: "<active> active / <total> total tasks". *)
Definition updateCounter (a : App) : App :=
  let activeCount := length (List.filter isActive (tasks a)) in
  let totalCount := length (tasks a) in
  {| tasks := tasks a; nextId := nextId a; storage := storage a;
     taskList := taskList a; taskCounter := Some (activeCount, totalCount) |}.

(** [renderTasks(filter)]: with nothing to show it returns before the
    counter is updated. *)
Definition renderTasks (filter : jsstring) (a : App) : App :=
  let filteredTasks := filterTasks filter a in
  if Nat.eqb (length filteredTasks) 0 then
    {| tasks := tasks a; nextId := nextId a; storage := storage a;
       taskList := NoTasks; taskCounter := taskCounter a |}
  else
    updateCounter
      {| tasks := tasks a; nextId := nextId a; storage := storage a;
         taskList := Items filteredTasks; taskCounter := taskCounter a |}.

(** [addTask(title, description, priority)], at time [now]. *)
Definition addTask (title description priority : jsstring) (now : N) (a : App) : App :=
  let newTask :=
    {| id := nextId a; title := title; description := description;
       completed := false; createdAt := now; priority := priority |} in
  let a :=
    {| tasks := tasks a ++ [newTask]; nextId := S (nextId a);
       storage := storage a; taskList := taskList a;
       taskCounter := taskCounter a |} in
  renderTasks (lit "all") (saveTasksToStorage a).

Definition deleteTask (i : nat) (a : App) : App :=
  let a :=
    {| tasks := List.filter (fun task => negb (Nat.eqb (id task) i)) (tasks a);
       nextId := nextId a; storage := storage a; taskList := taskList a;
       taskCounter := taskCounter a |} in
  renderTasks (lit "all") (saveTasksToStorage a).

(** [task.completed = !task.completed] on the task that [find] returned:
    the first one with the identifier. *)
Fixpoint toggleFirst (i : nat) (l : list Task) : list Task :=
  match l with
  | [] => []
  | t :: rest =>
      if Nat.eqb (id t) i then
        {| id := id t; title := title t; description := description t;
           completed := negb (completed t); createdAt := createdAt t;
           priority := priority t |} :: rest
      else t :: toggleFirst i rest
  end.

Definition toggleTask (i : nat) (a : App) : App :=
  match List.find (fun t => Nat.eqb (id t) i) (tasks a) with
  | Some _ =>
      let a :=
        {| tasks := toggleFirst i (tasks a); nextId := nextId a;
           storage := storage a; taskList := taskList a;
           taskCounter := taskCounter a |} in
      renderTasks (lit "all") (saveTasksToStorage a)
  | None => a
  end.

(** [loadTasksFromStorage()] *)
Definition loadTasksFromStorage (a : App) : App :=
  match storage a with
  | Missing => a
  | Corrupt =>
      {| tasks := []; nextId := nextId a; storage := storage a;
         taskList := taskList a; taskCounter := taskCounter a |}
  | Json parsed =>
      {| tasks := parsed;
         nextId := if Nat.ltb 0 (length parsed)
                   then list_max (map id parsed) + 1 else nextId a;
         storage := storage a; taskList := taskList a;
         taskCounter := taskCounter a |}
  end.

(** [new TaskManagerApp()] on a page whose storage item and counter are as
    given. *)
Definition new (item : StorageItem Task) (counter : option (nat * nat)) : App :=
  renderTasks (lit "all")
    (loadTasksFromStorage
       {| tasks := []; nextId := 1; storage := item;
          taskList := NoTasks; taskCounter := counter |}).

(** The events [setupEventListeners] listens to: a submit of the form with
    the values of its three inputs, a click on the checkbox or on the
    delete button of a rendered task (with the identifier of its [data-id]
    attribute), a click on a filter button. *)
Inductive Event : Type :=
  | Submit (taskTitle taskDesc taskPriority : jsstring) (now : N)
  | ClickCheckbox (dataId : nat)
  | ClickDelete (dataId : nat)
  | ClickFilter (dataFilter : jsstring).

Definition handle (e : Event) (a : App) : App :=
  match e with
  | Submit taskTitle taskDesc taskPriority now =>
      if truthy (trim taskTitle) && truthy (trim taskDesc) then
        addTask (trim taskTitle) (trim taskDesc) taskPriority now a
      else a
  | ClickCheckbox dataId => toggleTask dataId a
  | ClickDelete dataId => deleteTask dataId a
  | ClickFilter dataFilter => renderTasks dataFilter a
  end.

(** A sequence of events, oldest first. *)
Definition handleAll (events : list Event) (a : App) : App :=
  fold_left (fun a e => handle e a) events a.

End TaskManagerApp.

(** ** The character counter of the contact page (src/contact.ts) *)

Module CharacterCounter.

(** Number-to-string conversion of an integer, as a template literal
    performs it. *)
Definition IntegerToString (z : Z) : jsstring :=
  if (z <? 0)%Z then lit "-" ++ NumberToString (Z.to_nat (- z))
  else NumberToString (Z.to_nat z).

(** [updateCounter()] inside [setupCharacterCounter]: the text and the
    colour it gives the counter for the current value of the textarea. *)
Definition updateCounter (maxLength : Z) (value : jsstring) : jsstring * jsstring :=
  let remaining := (maxLength - Z.of_nat (length value))%Z in
  (IntegerToString remaining ++ lit " characters remaining",
   if (remaining <? 20)%Z then lit "red"
   else if (remaining <? 50)%Z then lit "orange"
   else lit "#666").

End CharacterCounter.

(** ** The team page (src/about.ts) *)

Module About.

(** [s.split(sep)] for a separator of one character. *)
Fixpoint split (sep : N) (s : jsstring) : list jsstring :=
  match s with
  | [] => [[]]
  | c :: rest =>
      if c =? sep then [] :: split sep rest
      else
        match split sep rest with
        | w :: ws => (c :: w) :: ws
        | [] => [[c]]
        end
  end.

(** [l.join(sep)] *)
Fixpoint join (sep : jsstring) (l : list jsstring) : jsstring :=
  match l with
  | [] => []
  | x :: rest =>
      match rest with
      | [] => x
      | _ :: _ => x ++ sep ++ join sep rest
      end
  end.



(** [Developer.showSkills()], on [this.skills]. *)
Definition showSkills (skills : list jsstring) : jsstring :=
  lit "Skills: " ++ join (lit ", ") skills.

(** [Designer.showTools()], on [this.tools]. *)
Definition showTools (tools : list jsstring) : jsstring :=
  lit "I use: " ++ join (lit ", ") tools.


(** [skillsInput.value.split(',').map(s => s.trim()).filter(s => s.length > 0)] *)
Definition skillsOf (personSkills : jsstring) : list jsstring :=
  List.filter (fun s => Nat.ltb 0 (length s))
    (map trim (split (chr ",") personSkills)).


End About.

(** ** The rules in the words of the specification *)

(** A character that is neither whitespace nor [@]. *)
Definition emailChar (c : N) : bool :=
  negb (isWhiteSpace c) && negb (c =? chr "@").

(** One or more [emailChar]s, [@], one or more, [.], one or more. *)
Definition emailShape (s : jsstring) : Prop :=
  exists l d t : jsstring,
    s = l ++ chr "@" :: d ++ chr "." :: t
    /\ l <> [] /\ d <> [] /\ t <> []
    /\ Forall (fun c => emailChar c = true) l
    /\ Forall (fun c => emailChar c = true) d
    /\ Forall (fun c => emailChar c = true) t.

(** A digit, a whitespace character, [-], [+], [(] or [)]. *)
Definition phoneChar (c : N) : bool :=
  isDigit c || isWhiteSpace c
  || (c =? chr "-") || (c =? chr "+") || (c =? chr "(") || (c =? chr ")").

(** The four field identifiers of the contact form. *)
Definition fieldIds : list jsstring :=
  [lit "contactName"; lit "contactEmail"; lit "contactPhone"; lit "contactMessage"].

(** The message of a rule, reported when the rule fails. *)
Definition failing (ok : bool) (m : jsstring) : list jsstring :=
  if ok then [] else [m].

(** A phone that is present, non-empty and rejected by [validatePhone]. *)
Definition phoneNonEmptyInvalid (this : Statics) (p : option jsstring) : bool :=
  match p with
  | Some (c :: s) => negb (result (ContactFormValidator.validatePhone (c :: s)) this)
  | _ => false
  end.

(** The class after validating every form of a history, oldest first. *)
Fixpoint afterAll (history : list ContactFormData) (this : Statics) : Statics :=
  match history with
  | [] => this
  | d :: rest => afterAll rest (after (ContactFormValidator.validateForm d) this)
  end.

(** The four rules on a form: the name, the email, the phone (absent,
    empty or accepted by [validatePhone]) and the message. *)
Definition passesAllRules (this : Statics) (d : ContactFormData) : bool :=
  result (ContactFormValidator.validateName (name d)) this
  && result (ContactFormValidator.validateEmail (email d)) this
  && negb (phoneNonEmptyInvalid this (phone d))
  && result (ContactFormValidator.validateMessage (message d)) this.

(** The form [d] with its [phone] property replaced. *)
Definition withPhone (d : ContactFormData) (p : option jsstring) : ContactFormData :=
  {| name := name d; email := email d; message := message d; phone := p |}.

(** The four messages of [validateForm], in the order of its checks. *)
Definition formMessages (min : nat) : list jsstring :=
  [ContactFormValidator.nameError; ContactFormValidator.emailError;
   ContactFormValidator.phoneError; ContactFormValidator.messageError min].

Definition jsstring_eq_dec : forall s t : jsstring, {s = t} + {s <> t} :=
  List.list_eq_dec N.eq_dec.

(** How many times the message [m] occurs in a list of errors. *)
Definition occurrences (m : jsstring) (l : list jsstring) : nat :=
  count_occ jsstring_eq_dec l m.

(** Settles the comparisons of the [switch] on closed identifiers. *)
Ltac decide_ids :=
  repeat match goal with
    | |- context [decide (?a = ?b)] =>
        let E := fresh "E" in
        destruct (decide (a = b)) as [E | E];
        [ try (exfalso; vm_compute in E; discriminate E)
        | try (exfalso; apply E; reflexivity) ]
    end.

(** ** Correctness of the matcher *)

Section Matcher.

Lemma nullable_lang r : nullable r = true -> lang r [].
Proof.
  induction r; simpl; intros Hn; try discriminate.
  - constructor.
  - apply andb_prop in Hn as [H1 H2].
    change (lang (Seq r1 r2) ([] ++ [])). constructor; auto.
  - apply orb_prop in Hn as [H1 | H2]; [apply L_AltL | apply L_AltR]; auto.
  - constructor.
  - change (lang (Plus r) ([] ++ [])). constructor; [auto | constructor].
Qed.

Lemma lang_nil_nullable r s : lang r s -> s = [] -> nullable r = true.
Proof.
  induction 1; simpl; intros Hs; try discriminate; auto.
  - apply app_eq_nil in Hs as [-> ->]. rewrite IHlang1, IHlang2; auto.
  - rewrite IHlang; auto.
  - rewrite IHlang, orb_true_r; auto.
  - apply app_eq_nil in Hs as [-> ->]. auto.
Qed.

(** A non-empty match of [r*] starts with a non-empty match of [r]. *)
Lemma lang_star_cons r0 s0 :
  lang r0 s0 ->
  forall r c s, r0 = Star r -> s0 = c :: s ->
  exists s1 s2, s = s1 ++ s2 /\ lang r (c :: s1) /\ lang (Star r) s2.
Proof.
  induction 1; intros r' c' s' Hr Hs; try discriminate.
  injection Hr as ->.
  destruct s1 as [|x s1]; simpl in Hs.
  - eapply IHlang2; eauto.
  - injection Hs as Hx Hs. subst. exists s1, s2. auto.
Qed.

Lemma deriv_sound c r : forall s, lang (deriv c r) s -> lang r (c :: s).
Proof.
  induction r; simpl; intros s H.
  - inversion H.
  - inversion H.
  - destruct (N.eqb_spec c c0) as [->|]; inversion H; subst. constructor.
  - destruct (class_matches negated atoms c) eqn:E; inversion H; subst.
    constructor; auto.
  - assert (Hseq : forall u, lang (Seq (deriv c r1) r2) u -> lang (Seq r1 r2) (c :: u)).
    { intros u Hu. inversion Hu; subst.
      change (lang (Seq r1 r2) ((c :: s1) ++ s2)). constructor; auto. }
    destruct (nullable r1) eqn:E; [|auto].
    inversion H; subst; [auto|].
    change (lang (Seq r1 r2) ([] ++ c :: s)).
    constructor; auto using nullable_lang.
  - inversion H; subst; [apply L_AltL | apply L_AltR]; auto.
  - inversion H; subst.
    change (lang (Star r) ((c :: s1) ++ s2)). constructor; auto.
  - inversion H; subst.
    change (lang (Plus r) ((c :: s1) ++ s2)). constructor; auto.
Qed.

(** How a match of [r1 r2] or [r+] that starts with [c] splits. *)
Lemma lang_seq_cons r1 r2 c s :
  lang (Seq r1 r2) (c :: s) ->
  (lang r1 [] /\ lang r2 (c :: s))
  \/ (exists s1 s2, s = s1 ++ s2 /\ lang r1 (c :: s1) /\ lang r2 s2).
Proof.
  intros H. inversion H as [| | |r1' r2' s1 s2 H1 H2 [Hr1 Hr2] Hs| | | | |]; subst.
  destruct s1 as [|x s1]; simpl in Hs.
  - left. subst. auto.
  - right. injection Hs as Hx Hs. subst. eauto.
Qed.

Lemma lang_plus_cons r c s :
  lang (Plus r) (c :: s) ->
  exists s1 s2, s = s1 ++ s2 /\ lang r (c :: s1) /\ lang (Star r) s2.
Proof.
  intros H. inversion H as [| | | | | | | |r' s1 s2 H1 H2 Hr Hs]; subst.
  destruct s1 as [|x s1]; simpl in Hs.
  - subst. eapply lang_star_cons; eauto.
  - injection Hs as Hx Hs. subst. eauto.
Qed.

Lemma deriv_complete c r : forall s, lang r (c :: s) -> lang (deriv c r) s.
Proof.
  induction r; simpl; intros s H.
  - inversion H.
  - inversion H.
  - inversion H; subst. rewrite N.eqb_refl. constructor.
  - inversion H as [| |? ? ? Hc| | | | | |]; subst. rewrite Hc. constructor.
  - destruct (lang_seq_cons _ _ _ _ H) as [[H1 H2] | (s1 & s2 & -> & H1 & H2)].
    + rewrite (lang_nil_nullable _ _ H1 eq_refl). apply L_AltR. auto.
    + assert (lang (Seq (deriv c r1) r2) (s1 ++ s2)) by (constructor; auto).
      destruct (nullable r1); [apply L_AltL|]; auto.
  - inversion H; subst; [apply L_AltL | apply L_AltR]; auto.
  - destruct (lang_star_cons _ _ H r c s eq_refl eq_refl) as (s1 & s2 & -> & H1 & H2).
    constructor; auto.
  - destruct (lang_plus_cons _ _ _ H) as (s1 & s2 & -> & H1 & H2).
    constructor; auto.
Qed.

(** The matcher decides the language of the pattern. *)
Lemma matchb_lang s : forall r, matchb r s = true <-> lang r s.
Proof.
  induction s as [|c s IH]; intros r; simpl.
  - split; [apply nullable_lang | intros H; eapply lang_nil_nullable; eauto].
  - rewrite IH. split; [apply deriv_sound | apply deriv_complete].
Qed.

(** [[...]+] matches the non-empty strings made of characters of the class. *)
Lemma lang_star_class negated atoms s :
  lang (Star (Class negated atoms)) s <->
  Forall (fun c => class_matches negated atoms c = true) s.
Proof.
  split.
  - intros H. remember (Star (Class negated atoms)) as r eqn:Hr.
    induction H; try discriminate.
    + constructor.
    + injection Hr as ->. inversion H; subst. simpl. constructor; auto.
  - induction 1 as [|c s Hc _ IH].
    + constructor.
    + change (lang (Star (Class negated atoms)) ([c] ++ s)).
      constructor; [constructor|]; auto.
Qed.

Lemma lang_plus_class negated atoms s :
  lang (Plus (Class negated atoms)) s <->
  s <> [] /\ Forall (fun c => class_matches negated atoms c = true) s.
Proof.
  split.
  - intros H. inversion H as [| | | | | | | |r' s1 s2 H1 H2 Hr Hs]; subst.
    inversion H1 as [| |? ? c Hc| | | | | |]; subst. simpl.
    split; [intros E; discriminate E|].
    constructor; auto. apply lang_star_class; auto.
  - intros [Hne Hall]. destruct Hall as [|c s Hc Hs]; [congruence|].
    change (lang (Plus (Class negated atoms)) ([c] ++ s)).
    constructor; [constructor; auto | apply lang_star_class; auto].
Qed.

End Matcher.

(** ** The two patterns *)

Section Patterns.
Import ContactFormValidator.

Lemma lang_seq r1 r2 s :
  lang (Seq r1 r2) s <-> exists s1 s2, s = s1 ++ s2 /\ lang r1 s1 /\ lang r2 s2.
Proof.
  split.
  - intros H. inversion H; subst. eauto.
  - intros (s1 & s2 & -> & H1 & H2). constructor; auto.
Qed.

Lemma lang_char c s : lang (Char c) s <-> s = [c].
Proof.
  split.
  - intros H. inversion H; subst. reflexivity.
  - intros ->. constructor.
Qed.

Lemma email_class c :
  class_matches true [ClassSpace; ClassChar (chr "@")] c = emailChar c.
Proof.
  unfold class_matches, emailChar. cbn [existsb atom_matches].
  destruct (isWhiteSpace c), (c =? chr "@"); reflexivity.
Qed.

Lemma phone_class c :
  class_matches false
    [ClassDigit; ClassSpace; ClassChar (chr "-"); ClassChar (chr "+");
     ClassChar (chr "("); ClassChar (chr ")")] c = phoneChar c.
Proof.
  unfold class_matches, phoneChar. cbn [existsb atom_matches xorb].
  rewrite orb_false_r, !orb_assoc. reflexivity.
Qed.

Lemma lang_email_segment s :
  lang email_segment s <-> s <> [] /\ Forall (fun c => emailChar c = true) s.
Proof.
  unfold email_segment. rewrite lang_plus_class.
  split; intros [Hne Hall]; split; auto;
    eapply Forall_impl; eauto; intros c; cbv beta; rewrite email_class; auto.
Qed.

Lemma lang_email_pattern s : lang email_pattern s <-> emailShape s.
Proof.
  unfold email_pattern, emailShape. split.
  - intros H.
    apply lang_seq in H as (l & s1 & -> & Hl & H).
    apply lang_seq in H as (a & s2 & -> & Ha & H).
    apply lang_seq in H as (d & s3 & -> & Hd & H).
    apply lang_seq in H as (p & t & -> & Hp & Ht).
    apply lang_char in Ha as ->. apply lang_char in Hp as ->.
    apply lang_email_segment in Hl as [? ?].
    apply lang_email_segment in Hd as [? ?].
    apply lang_email_segment in Ht as [? ?].
    exists l, d, t. simpl. auto 10.
  - intros (l & d & t & -> & Hl & Hd & Ht & Al & Ad & At).
    constructor; [apply lang_email_segment; auto|].
    change (lang (Seq (Char (chr "@"))
                    (Seq email_segment (Seq (Char (chr ".")) email_segment)))
              ([chr "@"] ++ (d ++ chr "." :: t))).
    constructor; [constructor|].
    constructor; [apply lang_email_segment; auto|].
    change (lang (Seq (Char (chr ".")) email_segment) ([chr "."] ++ t)).
    constructor; [constructor | apply lang_email_segment; auto].
Qed.

Lemma lang_phone_pattern s :
  lang phone_pattern s <-> s <> [] /\ Forall (fun c => phoneChar c = true) s.
Proof.
  unfold phone_pattern. rewrite lang_plus_class.
  split; intros [Hne Hall]; split; auto;
    eapply Forall_impl; eauto; intros c; cbv beta; rewrite phone_class; auto.
Qed.

End Patterns.

(** ** The static methods on the class *)

Section Methods.
Import ContactFormValidator.
Variable n : nat.

(** A literal without [g] or [y] is left untouched by [test]. *)
Lemma test_unflagged r S :
  test (mkRegExp r false false 0) S = (matchb r S, mkRegExp r false false 0).
Proof. reflexivity. Qed.

(** With the [g] flag the same call would depend on the calls before
    it: the second [test] of a matching string starts at the end of the
    first match and fails. *)
Lemma test_global_remembers r S :
  matchb r S = true -> S <> [] ->
  let R := mkRegExp r true false 0 in
  fst (test R S) = true /\ fst (test (snd (test R S)) S) = false.
Proof.
  intros Hm Hne. unfold test. cbn [global sticky lastIndex body orb Nat.eqb andb].
  rewrite Hm. cbn [fst snd set_lastIndex global sticky lastIndex body orb].
  destruct S as [|c S]; [contradiction|]. split; reflexivity.
Qed.

Lemma validateEmail_run v :
  validateEmail v (configured n) = (matchb email_pattern v, configured n).
Proof. reflexivity. Qed.

Lemma validatePhone_run v :
  validatePhone v (configured n)
  = (Nat.eqb (length v) 0 || matchb phone_pattern v, configured n).
Proof. unfold validatePhone. destruct v; reflexivity. Qed.

Lemma validateName_run v :
  validateName v (configured n) = (Nat.leb 2 (length (trim v)), configured n).
Proof. reflexivity. Qed.

Lemma validateMessage_run v :
  validateMessage v (configured n) = (Nat.leb n (length (trim v)), configured n).
Proof. reflexivity. Qed.

Lemma phoneFails_run p :
  phoneFails p (configured n) = (phoneNonEmptyInvalid (configured n) p, configured n).
Proof.
  destruct p as [[|c s]|]; reflexivity.
Qed.

(** [validateForm] returns the messages of the failing rules, in the
    order name, email, phone, message, and leaves the class as it was. *)
Lemma validateForm_run d :
  validateForm d (configured n)
  = ({| isValid :=
          Nat.eqb (length
            (failing (Nat.leb 2 (length (trim (name d)))) nameError
             ++ failing (matchb email_pattern (email d)) emailError
             ++ failing (negb (phoneNonEmptyInvalid (configured n) (phone d))) phoneError
             ++ failing (Nat.leb n (length (trim (message d)))) (messageError n))) 0;
        errors :=
          failing (Nat.leb 2 (length (trim (name d)))) nameError
          ++ failing (matchb email_pattern (email d)) emailError
          ++ failing (negb (phoneNonEmptyInvalid (configured n) (phone d))) phoneError
          ++ failing (Nat.leb n (length (trim (message d)))) (messageError n) |},
     configured n).
Proof.
  unfold validateForm, bind.
  rewrite validateName_run, validateEmail_run, phoneFails_run, validateMessage_run.
  unfold get, ret, push, failing.
  destruct (Nat.leb 2 _), (matchb email_pattern _),
    (phoneNonEmptyInvalid _ _), (Nat.leb n _); reflexivity.
Qed.

End Methods.

(** ** Messages *)

Section Messages.
Import ContactFormValidator.

(** The four texts of [validateForm] are pairwise different, whatever
    the configured minimum is. *)
Lemma formMessages_NoDup n : NoDup (formMessages n).
Proof.
  unfold formMessages, messageError.
  repeat apply NoDup_cons_2; try apply NoDup_nil_2;
    rewrite ?elem_of_cons, ?elem_of_nil; intros H;
    repeat (destruct H as [H | H]); try exact H;
    cbn in H; discriminate H.
Qed.

(** Whatever the four rules say, the reported messages are picked, in
    order, from the four texts. *)
Lemma failing_sublist (a b c e : bool) (m1 m2 m3 m4 : jsstring) :
  failing a m1 ++ failing b m2 ++ failing c m3 ++ failing e m4
    `sublist_of` [m1; m2; m3; m4].
Proof.
  destruct a, b, c, e; simpl;
    repeat first [apply sublist_nil | apply sublist_skip | apply sublist_cons].
Qed.

(** With four different texts, a text is reported exactly when its own
    rule fails. *)
Lemma failing_elem (a b c e : bool) (m1 m2 m3 m4 : jsstring) :
  NoDup [m1; m2; m3; m4] ->
  let l := failing a m1 ++ failing b m2 ++ failing c m3 ++ failing e m4 in
  (m1 ∈ l <-> a = false) /\ (m2 ∈ l <-> b = false)
  /\ (m3 ∈ l <-> c = false) /\ (m4 ∈ l <-> e = false).
Proof.
  intros Hnd. repeat rewrite ?NoDup_cons, ?not_elem_of_cons in Hnd.
  destruct Hnd as ((H12 & H13 & H14 & _) & (H23 & H24 & _) & (H34 & _) & _).
  destruct a, b, c, e; cbn [failing app];
    rewrite ?elem_of_cons, ?elem_of_nil; intuition congruence.
Qed.

End Messages.

(** ** Properties of the validator *)

Section Validator.
Import ContactFormValidator.

(** C1. For every form, [validateForm] evaluates the four rules
    independently of each other and returns exactly the messages of the
    failing ones, in the order name, email, phone, message; the phone
    message is there exactly when the phone is present, non-empty and
    rejected by [validatePhone]; [isValid] is true exactly when the list
    of errors is empty. *)
Theorem validateForm_reports_every_failing_rule (d : ContactFormData) :
  let r := result (validateForm d) class in
  errors r
  = failing (result (validateName (name d)) class) nameError
    ++ failing (result (validateEmail (email d)) class) emailError
    ++ failing (negb (phoneNonEmptyInvalid class (phone d))) phoneError
    ++ failing (result (validateMessage (message d)) class)
         (messageError (MIN_MESSAGE_LENGTH class))
  /\ (phoneNonEmptyInvalid class (phone d) = true
      <-> exists v, phone d = Some v /\ v <> []
                    /\ result (validatePhone v) class = false)
  /\ (isValid r = true <-> errors r = []).
Proof.
  unfold result, class. rewrite validateForm_run.
  rewrite validateName_run, validateEmail_run, validateMessage_run.
  cbn [fst isValid errors MIN_MESSAGE_LENGTH configured].
  split; [reflexivity | split].
  - destruct (phone d) as [[|c v]|]; cbn [phoneNonEmptyInvalid].
    + split; [discriminate | intros (v & Hv & Hne & _)].
      injection Hv as <-. contradiction.
    + rewrite negb_true_iff. split.
      * intros H. exists (c :: v). auto.
      * intros (v' & Hv & _ & H). injection Hv as <-. exact H.
    + split; [discriminate | intros (v & Hv & _)]. discriminate.
  - rewrite Nat.eqb_eq. split.
    + intros H. apply length_zero_iff_nil. exact H.
    + intros ->. reflexivity.
Qed.

(** C3. [validateEmail] accepts exactly the strings made of one or more
    characters that are neither whitespace nor [@], then [@], then one
    or more such characters, then [.], then one or more such
    characters; it accepts [a@b.co] and rejects [a@b] and [a b@c.com]. *)
Theorem validateEmail_accepts_email_shape (s : jsstring) :
  (result (validateEmail s) class = true <-> emailShape s)
  /\ result (validateEmail (lit "a@b.co")) class = true
  /\ result (validateEmail (lit "a@b")) class = false
  /\ result (validateEmail (lit "a b@c.com")) class = false.
Proof.
  split; [|repeat split; vm_compute; reflexivity].
  unfold result, class. rewrite validateEmail_run. cbn [fst].
  rewrite matchb_lang. apply lang_email_pattern.
Qed.

(** C6. [validatePhone] accepts exactly the empty string and the strings
    whose every character is a digit, a whitespace character, [-], [+],
    [(] or [)]; it accepts the empty string and [123-456-7890] and
    rejects [call me]. *)
Theorem validatePhone_accepts_phone_characters (s : jsstring) :
  (result (validatePhone s) class = true
   <-> s = [] \/ Forall (fun c => phoneChar c = true) s)
  /\ result (validatePhone (lit "")) class = true
  /\ result (validatePhone (lit "123-456-7890")) class = true
  /\ result (validatePhone (lit "call me")) class = false.
Proof.
  split; [|repeat split; vm_compute; reflexivity].
  unfold result, class. rewrite validatePhone_run. cbn [fst].
  rewrite orb_true_iff, Nat.eqb_eq, matchb_lang, lang_phone_pattern.
  split.
  - intros [H | [_ H]]; [left; apply length_zero_iff_nil; exact H | right; exact H].
  - intros [-> | H]; [left; reflexivity|].
    destruct s as [|c s]; [left; reflexivity | right].
    split; [intros E; discriminate E | exact H].
Qed.

(** The class is the same after validating any history of forms. *)
Lemma afterAll_class n history : afterAll history (configured n) = configured n.
Proof.
  induction history as [|d rest IH]; simpl; [reflexivity|].
  unfold after. rewrite validateForm_run. exact IH.
Qed.

(** C7. [validateForm] is deterministic and stateless: a call leaves the
    class (its regular expressions and constant) exactly as it was, so a
    second call on the same form returns the same result, and so does a
    call made after validating any history of other forms. *)
Theorem validateForm_deterministic_and_stateless
    (d : ContactFormData) (history : list ContactFormData) :
  after (validateForm d) class = class
  /\ result (validateForm d) (after (validateForm d) class)
     = result (validateForm d) class
  /\ validateForm d (afterAll history class) = validateForm d class.
Proof.
  unfold class. rewrite afterAll_class.
  unfold after, result. rewrite validateForm_run. cbn [fst snd].
  rewrite validateForm_run. auto.
Qed.

(** C9. A form without a phone and the same form with an empty phone
    get the same result, and neither result carries the phone message. *)
Theorem absent_phone_same_as_empty_phone (d : ContactFormData) :
  result (validateForm (withPhone d None)) class
  = result (validateForm (withPhone d (Some []))) class
  /\ (phoneError ∉ errors (result (validateForm (withPhone d None)) class))
  /\ (phoneError ∉ errors (result (validateForm (withPhone d (Some []))) class)).
Proof.
  unfold result, class. rewrite !validateForm_run.
  cbn [fst errors withPhone name email message phone phoneNonEmptyInvalid negb].
  split; [reflexivity|].
  assert (H : phoneError ∉
    failing (Nat.leb 2 (length (trim (name d)))) nameError
    ++ failing (matchb email_pattern (email d)) emailError
    ++ failing true phoneError
    ++ failing (Nat.leb 10 (length (trim (message d)))) (messageError 10)).
  { destruct (Nat.leb 2 _), (matchb _ _), (Nat.leb 10 _); cbn [failing app];
      rewrite ?elem_of_cons, ?elem_of_nil; intros H;
      repeat (destruct H as [H | H]); try exact H; discriminate H. }
  split; exact H.
Qed.

(** C10. A non-empty phone needs no digit to be accepted: [()], [-] and
    a single space contain no digit and [validatePhone] accepts them. *)
Theorem validatePhone_accepts_phone_without_digit :
  Forall (fun s : jsstring =>
            s <> []
            /\ Forall (fun c => isDigit c = false) s
            /\ result (validatePhone s) class = true)
         [lit "()"; lit "-"; lit " "].
Proof.
  repeat apply Forall_cons_2; try apply Forall_nil_2;
    (split; [intros E; discriminate E | split; [|vm_compute; reflexivity]]);
    repeat apply Forall_cons_2; try apply Forall_nil_2; reflexivity.
Qed.

End Validator.

(** ** The per-field check *)

Section FieldCheck.
Import ContactFormValidator.

(** What [validateField] shows for a field, by identifier, and that it
    leaves the class as it was. *)
Lemma validateField_run n id v :
  ContactForm.validateField id v (configured n)
  = ((if decide (id = lit "contactName") then
        if Nat.leb 2 (length (trim v)) then None
        else Some ContactForm.nameError
      else if decide (id = lit "contactEmail") then
        if matchb email_pattern v then None
        else Some ContactForm.emailError
      else if decide (id = lit "contactPhone") then
        if truthy v && negb (Nat.eqb (length v) 0 || matchb phone_pattern v)
        then Some ContactForm.phoneError else None
      else if decide (id = lit "contactMessage") then
        if Nat.leb n (length (trim v)) then None
        else Some (ContactForm.messageError n)
      else None),
     configured n).
Proof.
  unfold ContactForm.validateField, bind.
  destruct (decide (id = lit "contactName")).
  { rewrite validateName_run. destruct (Nat.leb 2 _); reflexivity. }
  destruct (decide (id = lit "contactEmail")).
  { rewrite validateEmail_run. destruct (matchb _ _); reflexivity. }
  destruct (decide (id = lit "contactPhone")).
  { destruct v as [|c v]; [reflexivity|]. cbn [truthy andb].
    rewrite validatePhone_run. destruct (_ || _); reflexivity. }
  destruct (decide (id = lit "contactMessage")).
  { rewrite validateMessage_run. unfold get.
    destruct (Nat.leb n _); reflexivity. }
  reflexivity.
Qed.

Lemma is_Some_if (b : bool) (m : jsstring) :
  is_Some (if b then None else Some m) <-> b = false.
Proof.
  destruct b; split; intros H; try discriminate H; try reflexivity.
  - destruct H as [x Hx]. discriminate Hx.
  - exists m. reflexivity.
Qed.

(** C2. For each of the four field identifiers, [validateField] shows a
    message exactly when the rule of that field fails on the value (for
    the phone, when the value is non-empty and [validatePhone] rejects
    it) and shows none when the field passes; this is also exactly when
    [validateForm] reports the message of that field for a form that
    holds the value. *)
Theorem validateField_mirrors_form_rules (v : jsstring) (d : ContactFormData) :
  (is_Some (result (ContactForm.validateField (lit "contactName") v) class)
     <-> result (validateName v) class = false)
  /\ (is_Some (result (ContactForm.validateField (lit "contactEmail") v) class)
     <-> result (validateEmail v) class = false)
  /\ (is_Some (result (ContactForm.validateField (lit "contactPhone") v) class)
     <-> v <> [] /\ result (validatePhone v) class = false)
  /\ (is_Some (result (ContactForm.validateField (lit "contactMessage") v) class)
     <-> result (validateMessage v) class = false)
  /\ (is_Some (result (ContactForm.validateField (lit "contactName") (name d)) class)
     <-> nameError ∈ errors (result (validateForm d) class))
  /\ (is_Some (result (ContactForm.validateField (lit "contactEmail") (email d)) class)
     <-> emailError ∈ errors (result (validateForm d) class))
  /\ (is_Some (result (ContactForm.validateField (lit "contactPhone") v) class)
     <-> phoneError ∈ errors (result (validateForm (withPhone d (Some v))) class))
  /\ (is_Some (result (ContactForm.validateField (lit "contactMessage") (message d)) class)
     <-> messageError (MIN_MESSAGE_LENGTH class)
           ∈ errors (result (validateForm d) class)).
Proof.
  assert (Hphone : is_Some
            (if truthy v && negb (Nat.eqb (length v) 0 || matchb phone_pattern v)
             then Some ContactForm.phoneError else None)
          <-> v <> [] /\ (Nat.eqb (length v) 0 || matchb phone_pattern v) = false).
  { destruct v as [|c v]; cbn [truthy andb].
    - split; [intros [x Hx]; discriminate Hx | intros [H _]; contradiction].
    - destruct (_ || _); cbn [negb]; split.
      + intros [x Hx]; discriminate Hx.
      + intros [_ H]; discriminate H.
      + intros _. split; [intros E; discriminate E | reflexivity].
      + intros _. eexists; reflexivity. }
  unfold result, class. rewrite !validateField_run, !validateForm_run.
  rewrite validateName_run, validateEmail_run, validatePhone_run, validateMessage_run.
  decide_ids. cbn [fst errors MIN_MESSAGE_LENGTH configured].
  rewrite !is_Some_if, Hphone.
  destruct (failing_elem (Nat.leb 2 (length (trim (name d))))
              (matchb email_pattern (email d))
              (negb (phoneNonEmptyInvalid (configured 10) (phone d)))
              (Nat.leb 10 (length (trim (message d))))
              _ _ _ _ (formMessages_NoDup 10)) as (F1 & F2 & _ & F4).
  destruct (failing_elem (Nat.leb 2 (length (trim (name (withPhone d (Some v))))))
              (matchb email_pattern (email (withPhone d (Some v))))
              (negb (phoneNonEmptyInvalid (configured 10) (phone (withPhone d (Some v)))))
              (Nat.leb 10 (length (trim (message (withPhone d (Some v))))))
              _ _ _ _ (formMessages_NoDup 10)) as (_ & _ & F3 & _).
  cbv zeta in F1, F2, F3, F4. rewrite F1, F2, F3, F4.
  assert (Hp : v <> [] /\ (Nat.eqb (length v) 0 || matchb phone_pattern v) = false
               <-> negb (phoneNonEmptyInvalid (configured 10)
                           (phone (withPhone d (Some v)))) = false).
  { destruct v as [|c v]; cbn [withPhone phone phoneNonEmptyInvalid negb].
    - split; [intros [H _]; contradiction | intros H; discriminate H].
    - unfold result. rewrite validatePhone_run. cbn [fst].
      rewrite negb_involutive. split.
      + intros [_ H]; exact H.
      + intros H. split; [intros Hnil; discriminate Hnil | exact H]. }
  clear - Hp. tauto.
Qed.

(** C4. The validator returns a value on every input: [validateForm]
    and [validateField] are total and leave the class as it was, and for
    a field identifier other than the four recognized ones
    [validateField] shows no message, whatever the value. *)
Theorem validator_returns_values_and_passes_unknown_fields
    (d : ContactFormData) (id v : jsstring) (Hid : id ∉ fieldIds) :
  (exists r, validateForm d class = (r, class))
  /\ (forall id' v', exists o, ContactForm.validateField id' v' class = (o, class))
  /\ result (ContactForm.validateField id v) class = None.
Proof.
  unfold result, class. split; [|split].
  - rewrite validateForm_run. eexists; reflexivity.
  - intros id' v'. rewrite validateField_run. eexists; reflexivity.
  - rewrite validateField_run. cbn [fst].
    unfold fieldIds in Hid. repeat rewrite not_elem_of_cons in Hid.
    destruct Hid as (H1 & H2 & H3 & H4 & _).
    rewrite !decide_False by assumption. reflexivity.
Qed.

(** The pass-through at an identifier the form does not have. *)
Lemma validator_returns_values_and_passes_unknown_fields_witness :
  (lit "contactSubject" ∉ fieldIds)
  /\ (exists r,
        validateForm (mkContactFormData (lit "A") (lit "bad") (lit "short") None) class
        = (r, class))
  /\ (forall id' v', exists o, ContactForm.validateField id' v' class = (o, class))
  /\ result (ContactForm.validateField (lit "contactSubject") (lit "hello")) class
     = None.
Proof.
  assert (H : lit "contactSubject" ∉ fieldIds).
  { unfold fieldIds. intros H.
    repeat (apply elem_of_cons in H as [H | H];
            [vm_compute in H; discriminate H|]).
    apply elem_of_nil in H. exact H. }
  split; [exact H|].
  exact (validator_returns_values_and_passes_unknown_fields
           (mkContactFormData (lit "A") (lit "bad") (lit "short") None)
           (lit "contactSubject") (lit "hello") H).
Defined.

End FieldCheck.

(** ** Message texts and the shape of the error list *)

Section Texts.
Import ContactFormValidator.

(** C5, as the claim states it, fails: the name rule fails on [A] in
    both paths, [validateForm] reports it with one text and
    [validateField] with another. *)
Lemma name_rule_text_differs_between_form_and_field :
  let d := mkContactFormData (lit "A") (lit "a@b.co") (lit "0123456789") None in
  errors (result (validateForm d) class)
    = [lit "Name must be at least 2 characters long"]
  /\ result (ContactForm.validateField (lit "contactName") (name d)) class
    = Some (lit "Name must be at least 2 characters")
  /\ lit "Name must be at least 2 characters long"
     <> lit "Name must be at least 2 characters".
Proof.
  split; [vm_compute; reflexivity | split; [vm_compute; reflexivity|]].
  intros H. vm_compute in H. discriminate H.
Qed.

(** C5, amended. Each reporting path has its own fixed text per rule:
    [validateForm] reports a failing rule with the same text on every
    input, and so does [validateField] with its own shorter text. In
    both paths the text of the message-length rule is built from the
    configured [MIN_MESSAGE_LENGTH], the constant the check compares the
    trimmed length with, so that for every value [n] of the constant the
    check and both texts follow it. *)
Theorem error_texts_fixed_per_path_and_interpolated
    (n : nat) (d : ContactFormData) (v : jsstring) :
  let this := configured n in
  errors (result (validateForm d) this)
  = failing (result (validateName (name d)) this)
      (lit "Name must be at least 2 characters long")
    ++ failing (result (validateEmail (email d)) this)
         (lit "Please enter a valid email address")
    ++ failing (negb (phoneNonEmptyInvalid this (phone d)))
         (lit "Please enter a valid phone number")
    ++ failing (Nat.leb n (length (trim (message d))))
         (lit "Message must be at least " ++ NumberToString n
            ++ lit " characters long")
  /\ result (ContactForm.validateField (lit "contactName") v) this
     = (if result (validateName v) this then None
        else Some (lit "Name must be at least 2 characters"))
  /\ result (ContactForm.validateField (lit "contactEmail") v) this
     = (if result (validateEmail v) this then None
        else Some (lit "Invalid email address"))
  /\ result (ContactForm.validateField (lit "contactPhone") v) this
     = (if truthy v && negb (result (validatePhone v) this)
        then Some (lit "Invalid phone number") else None)
  /\ result (ContactForm.validateField (lit "contactMessage") v) this
     = (if Nat.leb n (length (trim v)) then None
        else Some (lit "Message must be at least " ++ NumberToString n
                     ++ lit " characters"))
  /\ result (validateMessage v) this = Nat.leb n (length (trim v))
  /\ NumberToString (MIN_MESSAGE_LENGTH class) = lit "10".
Proof.
  unfold result. cbv zeta.
  rewrite validateForm_run, !validateField_run.
  rewrite validateName_run, validateEmail_run, validatePhone_run,
    validateMessage_run.
  decide_ids. cbn [fst errors].
  repeat split; reflexivity.
Qed.

(** C8. The errors of [validateForm] are picked, in order, from its four
    messages: they form a subsequence of the list name, email, phone,
    message-length; there are at most four of them, none is repeated,
    and each of the four messages occurs at most once. *)
Theorem validateForm_errors_subsequence_of_four (d : ContactFormData) :
  let es := errors (result (validateForm d) class) in
  es `sublist_of` formMessages (MIN_MESSAGE_LENGTH class)
  /\ (length es <= 4)%nat
  /\ NoDup es
  /\ Forall (fun m => (occurrences m es <= 1)%nat)
       (formMessages (MIN_MESSAGE_LENGTH class)).
Proof.
  unfold result, class. rewrite validateForm_run.
  cbn [fst errors MIN_MESSAGE_LENGTH configured].
  set (es := _ ++ _).
  assert (Hsub : es `sublist_of` formMessages 10) by apply failing_sublist.
  assert (Hnd : NoDup es)
    by (eapply sublist_NoDup; eauto using formMessages_NoDup).
  split; [exact Hsub | split; [|split; [exact Hnd|]]].
  - apply sublist_length in Hsub. exact Hsub.
  - apply Forall_forall. intros m _. unfold occurrences.
    apply NoDup_count_occ, NoDup_ListNoDup. exact Hnd.
Qed.

End Texts.

(** ** Whitespace and the field rules *)

Section Trimming.
Import ContactFormValidator.

Lemma forallb_Forall_true {A} (p : A -> bool) (l : list A) :
  forallb p l = true <-> Forall (fun c => p c = true) l.
Proof.
  induction l as [|x l IH]; simpl.
  - split; [constructor | reflexivity].
  - rewrite andb_true_iff, IH. split.
    + intros [Hx Hl]. constructor; assumption.
    + intros H. inversion H; subst. auto.
Qed.

Lemma dropWhile_app_all {A} (p : A -> bool) (l x : list A) :
  forallb p l = true -> dropWhile p (l ++ x) = dropWhile p x.
Proof.
  induction l as [|c l IH]; simpl; [reflexivity|].
  intros H. apply andb_true_iff in H as [Hc Hl]. rewrite Hc. auto.
Qed.

Lemma dropWhile_all {A} (p : A -> bool) (l : list A) :
  forallb p l = true -> dropWhile p l = [].
Proof.
  intros H. rewrite <- (app_nil_r l). rewrite dropWhile_app_all by exact H.
  reflexivity.
Qed.

Lemma forallb_rev {A} (p : A -> bool) (l : list A) :
  forallb p (rev l) = forallb p l.
Proof.
  induction l as [|c l IH]; simpl; [reflexivity|].
  rewrite forallb_app, IH. simpl. rewrite andb_true_r. apply andb_comm.
Qed.

Lemma trimEnd_app_blank (s ws : jsstring) :
  forallb isWhiteSpace ws = true -> trimEnd (s ++ ws) = trimEnd s.
Proof.
  intros H. unfold trimEnd. rewrite rev_app_distr.
  rewrite dropWhile_app_all by (rewrite forallb_rev; exact H). reflexivity.
Qed.

Lemma trim_app_blank (s ws : jsstring) :
  forallb isWhiteSpace ws = true -> trim (s ++ ws) = trim s.
Proof.
  intros H. unfold trim, trimStart.
  induction s as [|c s IH]; simpl.
  - rewrite dropWhile_all by exact H. reflexivity.
  - destruct (isWhiteSpace c); [exact IH|].
    change (c :: s ++ ws) with ((c :: s) ++ ws).
    apply trimEnd_app_blank. exact H.
Qed.

(** Whitespace around a string does not survive [trim]. *)
Lemma trim_padded (ws1 s ws2 : jsstring) :
  forallb isWhiteSpace ws1 = true -> forallb isWhiteSpace ws2 = true ->
  trim (ws1 ++ s ++ ws2) = trim s.
Proof.
  intros H1 H2. rewrite <- (trim_app_blank s ws2 H2).
  unfold trim, trimStart. rewrite dropWhile_app_all by exact H1. reflexivity.
Qed.

(** What [dropWhile] leaves starts with a character that fails the test. *)
Lemma dropWhile_head {A} (p : A -> bool) (l : list A) x r :
  dropWhile p l = x :: r -> p x = false.
Proof.
  induction l as [|c l IH]; simpl; [discriminate|].
  destruct (p c) eqn:E; [exact IH|]. intros H. injection H as <- _. exact E.
Qed.

Lemma dropWhile_fixed {A} (p : A -> bool) (l : list A) :
  dropWhile p (dropWhile p l) = dropWhile p l.
Proof.
  destruct (dropWhile p l) as [|x r] eqn:E; [reflexivity|].
  simpl. rewrite (dropWhile_head _ _ _ _ E). reflexivity.
Qed.

(** [trimEnd] keeps a first character that is not whitespace. *)
Lemma trimEnd_keeps_head (x : N) (r : jsstring) :
  isWhiteSpace x = false -> exists r', trimEnd (x :: r) = x :: r'.
Proof.
  intros Hx. induction r as [|y r IH] using rev_ind.
  - exists []. unfold trimEnd. simpl. rewrite Hx. reflexivity.
  - destruct (isWhiteSpace y) eqn:Hy.
    + change (x :: r ++ [y]) with ((x :: r) ++ [y]).
      rewrite trimEnd_app_blank by (simpl; rewrite Hy; reflexivity). exact IH.
    + exists (r ++ [y]). unfold trimEnd.
      change (x :: r ++ [y]) with ((x :: r) ++ [y]).
      rewrite rev_app_distr. simpl. rewrite Hy. simpl.
      rewrite rev_app_distr, rev_involutive. reflexivity.
Qed.

(** A trimmed string neither starts nor ends with whitespace. *)
Lemma trim_ends (s : jsstring) :
  (forall x r, trim s = x :: r -> isWhiteSpace x = false)
  /\ (forall r y, trim s = r ++ [y] -> isWhiteSpace y = false).
Proof.
  unfold trim. split.
  - intros x r H. unfold trimStart in H.
    destruct (dropWhile isWhiteSpace s) as [|c t] eqn:E.
    + discriminate H.
    + pose proof (dropWhile_head _ _ _ _ E) as Hc.
      destruct (trimEnd_keeps_head c t Hc) as [r' Hr'].
      rewrite Hr' in H. injection H as <- _. exact Hc.
  - intros r y H. unfold trimEnd in H.
    apply (f_equal (@rev N)) in H. rewrite rev_involutive, rev_app_distr in H.
    simpl in H. exact (dropWhile_head _ _ _ _ H).
Qed.

Lemma trim_idempotent (s : jsstring) : trim (trim s) = trim s.
Proof.
  assert (Hstart : trimStart (trim s) = trim s).
  { destruct (trim s) as [|x r] eqn:E; [reflexivity|].
    unfold trimStart. simpl.
    rewrite (proj1 (trim_ends s) x r E). reflexivity. }
  unfold trim at 1. rewrite Hstart. unfold trim, trimEnd.
  rewrite rev_involutive, dropWhile_fixed. reflexivity.
Qed.

End Trimming.

Section FieldRules.
Import ContactFormValidator.

(** X1. Whitespace around a name or a message does not count towards its
    length: padding a value with whitespace on both sides changes neither
    [validateName] nor [validateMessage], and a value made of whitespace
    only is rejected by both, however long it is. *)
Theorem name_and_message_ignore_surrounding_whitespace
    (ws1 s ws2 : jsstring)
    (H1 : forallb isWhiteSpace ws1 = true)
    (H2 : forallb isWhiteSpace ws2 = true) :
  result (validateName (ws1 ++ s ++ ws2)) class = result (validateName s) class
  /\ result (validateMessage (ws1 ++ s ++ ws2)) class
     = result (validateMessage s) class
  /\ result (validateName ws1) class = false
  /\ result (validateMessage ws1) class = false.
Proof.
  unfold result, class.
  rewrite !validateName_run, !validateMessage_run. cbn [fst].
  rewrite trim_padded by assumption.
  assert (Hb : trim ws1 = []).
  { rewrite <- (app_nil_r ws1). change (ws1 ++ []) with (ws1 ++ [] ++ []).
    rewrite trim_padded by (assumption || reflexivity). reflexivity. }
  rewrite Hb. repeat split; reflexivity.
Qed.

(** The padding at two spaces, [Al] and a line feed. *)
Lemma name_and_message_ignore_surrounding_whitespace_witness :
  forallb isWhiteSpace (lit "  ") = true
  /\ forallb isWhiteSpace [0x0A] = true
  /\ result (validateName (lit "  " ++ lit "Al" ++ [0x0A])) class
     = result (validateName (lit "Al")) class.
Proof.
  split; [reflexivity | split; [reflexivity|]].
  exact (proj1 (name_and_message_ignore_surrounding_whitespace
                  (lit "  ") (lit "Al") [0x0A] eq_refl eq_refl)).
Defined.

Lemma emailChar_no_at (l : jsstring) :
  Forall (fun c => emailChar c = true) l ->
  count_occ N.eq_dec l (chr "@") = 0%nat
  /\ Forall (fun c => isWhiteSpace c = false) l.
Proof.
  induction 1 as [|c l Hc _ [IH1 IH2]]; [split; [reflexivity | constructor]|].
  unfold emailChar in Hc. apply andb_true_iff in Hc as [Hw Ha].
  apply negb_true_iff in Hw, Ha. apply N.eqb_neq in Ha.
  split.
  - rewrite count_occ_cons_neq by exact Ha. exact IH1.
  - constructor; assumption.
Qed.

(** X2. An address accepted by [validateEmail] holds exactly one [@], no
    whitespace at all (the value is not trimmed first, so a space before
    or after the address is enough to reject it) and at least five
    characters. *)
Theorem accepted_email_has_one_at_and_no_whitespace
    (s : jsstring) (H : result (validateEmail s) class = true) :
  count_occ N.eq_dec s (chr "@") = 1%nat
  /\ Forall (fun c => isWhiteSpace c = false) s
  /\ (5 <= length s)%nat.
Proof.
  unfold result, class in H. rewrite validateEmail_run in H. cbn [fst] in H.
  apply matchb_lang, lang_email_pattern in H.
  destruct H as (l & d & t & -> & Hl & Hd & Ht & Al & Ad & At).
  destruct (emailChar_no_at l Al) as [Cl Wl].
  destruct (emailChar_no_at d Ad) as [Cd Wd].
  destruct (emailChar_no_at t At) as [Ct Wt].
  split; [|split].
  - rewrite count_occ_app, Cl. rewrite count_occ_cons_eq by reflexivity.
    rewrite count_occ_app, Cd.
    rewrite count_occ_cons_neq by (intros E; vm_compute in E; discriminate E).
    rewrite Ct. reflexivity.
  - apply Forall_app. split; [exact Wl|].
    constructor; [reflexivity|].
    apply Forall_app. split; [exact Wd|].
    constructor; [reflexivity | exact Wt].
  - rewrite length_app. cbn [length]. rewrite length_app. cbn [length].
    destruct l; [contradiction|]. destruct d; [contradiction|].
    destruct t; [contradiction|]. cbn [length]. lia.
Qed.

(** The address [a@b.co]. *)
Lemma accepted_email_has_one_at_and_no_whitespace_witness :
  result (validateEmail (lit "a@b.co")) class = true
  /\ count_occ N.eq_dec (lit "a@b.co") (chr "@") = 1%nat.
Proof.
  split; [reflexivity|].
  exact (proj1 (accepted_email_has_one_at_and_no_whitespace
                  (lit "a@b.co") eq_refl)).
Defined.

(** X3. The pattern treats a dot like any other character of a segment:
    an accepted address stays accepted with a dot added at its end or at
    its start, so trailing, leading and consecutive dots are admitted. *)
Theorem accepted_email_stays_accepted_with_more_dots
    (s : jsstring) (H : result (validateEmail s) class = true) :
  result (validateEmail (s ++ lit ".")) class = true
  /\ result (validateEmail (lit "." ++ s)) class = true.
Proof.
  unfold result, class in *. rewrite validateEmail_run in H.
  rewrite !validateEmail_run. cbn [fst] in *.
  rewrite matchb_lang, lang_email_pattern in H.
  rewrite !matchb_lang, !lang_email_pattern.
  destruct H as (l & d & t & -> & Hl & Hd & Ht & Al & Ad & At).
  split.
  - exists l, d, (t ++ lit "."). repeat split; auto.
    + rewrite <- app_assoc. cbn [app]. rewrite <- app_assoc. reflexivity.
    + destruct t; [contradiction | discriminate].
    + apply Forall_app. split; [exact At | constructor; [reflexivity | constructor]].
  - exists (lit "." ++ l), d, t. repeat split; auto.
    constructor; [reflexivity | exact Al].
Qed.

(** The address [a@b.co]. *)
Lemma accepted_email_stays_accepted_with_more_dots_witness :
  result (validateEmail (lit "a@b.co")) class = true
  /\ result (validateEmail (lit "a@b.co" ++ lit ".")) class = true.
Proof.
  split; [reflexivity|].
  exact (proj1 (accepted_email_stays_accepted_with_more_dots
                  (lit "a@b.co") eq_refl)).
Defined.

Lemma validatePhone_forallb (s : jsstring) :
  result (validatePhone s) class = forallb phoneChar s.
Proof.
  unfold result, class. rewrite validatePhone_run. cbn [fst].
  apply eq_true_iff_eq.
  rewrite orb_true_iff, Nat.eqb_eq, matchb_lang, lang_phone_pattern,
    forallb_Forall_true.
  split.
  - intros [H | [_ H]]; [|exact H].
    apply length_zero_iff_nil in H. subst. constructor.
  - intros H. destruct s; [left; reflexivity | right].
    split; [discriminate | exact H].
Qed.

(** X4. [validatePhone] judges a number character by character: two
    values put together are accepted exactly when both are, so an accepted
    number stays accepted with spaces, brackets or a prefix added, and one
    bad character anywhere rejects the whole value. *)
Theorem validatePhone_of_concatenation (s t : jsstring) :
  result (validatePhone (s ++ t)) class
  = result (validatePhone s) class && result (validatePhone t) class.
Proof. rewrite !validatePhone_forallb. apply forallb_app. Qed.

End FieldRules.

(** ** The contact form controller *)

Section Submissions.
Import ContactFormValidator.

Lemma failing_nil (a b c e : bool) (m1 m2 m3 m4 : jsstring) :
  Nat.eqb (length (failing a m1 ++ failing b m2 ++ failing c m3 ++ failing e m4)) 0
  = a && b && c && e.
Proof. destruct a, b, c, e; reflexivity. Qed.

Lemma validateForm_isValid n d :
  isValid (result (validateForm d) (configured n))
  = passesAllRules (configured n) d.
Proof.
  unfold passesAllRules, result. rewrite validateForm_run.
  rewrite validateName_run, validateEmail_run, validateMessage_run.
  cbn [fst isValid]. apply failing_nil.
Qed.

Lemma handleSubmit_run n (i : ContactForm.Inputs) st :
  ContactForm.handleSubmit (ContactForm.contactName i) (ContactForm.contactEmail i)
    (ContactForm.contactMessage i) (ContactForm.contactPhone i) st (configured n)
  = ((if passesAllRules (configured n) (ContactForm.formDataOf i) then
        ContactForm.showSuccess
          (ContactForm.saveSubmission (ContactForm.formDataOf i)
             (ContactForm.clearAllErrors st))
      else
        ContactForm.showFormErrors
          (errors (result (validateForm (ContactForm.formDataOf i)) (configured n)))
          (ContactForm.clearAllErrors st)),
     configured n).
Proof.
  rewrite <- validateForm_isValid.
  unfold ContactForm.handleSubmit, bind, result.
  change {| name := ContactForm.contactName i; email := ContactForm.contactEmail i;
            message := ContactForm.contactMessage i;
            phone := Some (ContactForm.contactPhone i) |}
    with (ContactForm.formDataOf i).
  rewrite validateForm_run. cbn [fst].
  destruct (isValid _); reflexivity.
Qed.

(** X5. A submit stores the form exactly when all four rules pass. Then
    the form data is appended to the submissions, the whole list is
    written to the storage, the counter shows the new length and the
    container holds the success message only. Otherwise the submissions,
    the storage and the counter are left alone and the container holds
    one box with the errors of [validateForm], of which there is at least
    one. In both cases the hints next to the fields are gone. *)
Theorem handleSubmit_stores_exactly_the_forms_that_pass
    (i : ContactForm.Inputs) (st : ContactForm.State) :
  let d := ContactForm.formDataOf i in
  let st' :=
    result (ContactForm.handleSubmit (ContactForm.contactName i)
              (ContactForm.contactEmail i) (ContactForm.contactMessage i)
              (ContactForm.contactPhone i) st) class in
  ContactForm.fieldErrors st' = ∅
  /\ ((passesAllRules class d = true
       /\ ContactForm.submissions st' = ContactForm.submissions st ++ [d]
       /\ ContactForm.contactSubmissions st'
          = Json (ContactForm.submissions st ++ [d])
       /\ ContactForm.submissionCount st'
          = Some (S (length (ContactForm.submissions st)))
       /\ ContactForm.formErrors st' = [ContactForm.SuccessMessage])
      \/ (passesAllRules class d = false
          /\ ContactForm.submissions st' = ContactForm.submissions st
          /\ ContactForm.contactSubmissions st' = ContactForm.contactSubmissions st
          /\ ContactForm.submissionCount st' = ContactForm.submissionCount st
          /\ ContactForm.formErrors st'
             = [ContactForm.ErrorBox (errors (result (validateForm d) class))]
          /\ errors (result (validateForm d) class) <> [])).
Proof.
  cbv zeta. unfold class.
  assert (Hne : passesAllRules (configured 10) (ContactForm.formDataOf i) = false ->
                errors (result (validateForm (ContactForm.formDataOf i))
                          (configured 10)) <> []).
  { intros E Hnil. rewrite <- validateForm_isValid in E.
    unfold result in E, Hnil. rewrite validateForm_run in E, Hnil.
    cbn [fst isValid errors] in E, Hnil. rewrite Hnil in E. discriminate E. }
  pose proof (f_equal fst (handleSubmit_run 10 i st)) as Hrun.
  cbn [fst] in Hrun.
  change (result (ContactForm.handleSubmit (ContactForm.contactName i)
                    (ContactForm.contactEmail i) (ContactForm.contactMessage i)
                    (ContactForm.contactPhone i) st) (configured 10)
          = (if passesAllRules (configured 10) (ContactForm.formDataOf i) then
               ContactForm.showSuccess
                 (ContactForm.saveSubmission (ContactForm.formDataOf i)
                    (ContactForm.clearAllErrors st))
             else
               ContactForm.showFormErrors
                 (errors (result (validateForm (ContactForm.formDataOf i))
                            (configured 10)))
                 (ContactForm.clearAllErrors st))) in Hrun.
  rewrite Hrun. clear Hrun.
  generalize dependent
    (errors (result (validateForm (ContactForm.formDataOf i)) (configured 10))).
  intros errs Hne.
  destruct (passesAllRules (configured 10) (ContactForm.formDataOf i)).
  - split; [reflexivity | left]. split; [reflexivity|].
    cbn. rewrite length_app. cbn [length].
    repeat split; try reflexivity. f_equal. lia.
  - split; [reflexivity | right]. split; [reflexivity|].
    cbn. repeat split; try reflexivity. apply Hne. reflexivity.
Qed.

Lemma validateField_hint n field value m :
  result (ContactForm.validateField field value) (configured n) = Some m ->
  ContactForm.hintOf n field = Some m.
Proof.
  unfold result, ContactForm.hintOf. rewrite validateField_run. cbn [fst].
  repeat destruct (decide _); try discriminate;
    match goal with |- (if ?b then _ else _) = _ -> _ => destruct b end;
    try discriminate; auto.
Qed.

Lemma handle_run n e st :
  ContactForm.handle e st (configured n)
  = (result (ContactForm.handle e st) (configured n), configured n).
Proof.
  unfold result. destruct e as [i | field value | field]; cbn [ContactForm.handle].
  - rewrite handleSubmit_run. reflexivity.
  - unfold ContactForm.blurListener, bind. rewrite validateField_run. reflexivity.
  - reflexivity.
Qed.

Lemma handleAll_cons n e rest st :
  result (ContactForm.handleAll (e :: rest) st) (configured n)
  = result (ContactForm.handleAll rest
              (result (ContactForm.handle e st) (configured n)))
      (configured n).
Proof.
  unfold result at 1 2. cbn [ContactForm.handleAll]. unfold bind.
  rewrite handle_run. reflexivity.
Qed.

(** A property of the controller that holds when it is created and that
    every event keeps holds after any sequence of events. *)
Lemma contact_invariant n (P : ContactForm.State -> Prop) events : forall st,
  P st ->
  (forall e st', P st' -> P (result (ContactForm.handle e st') (configured n))) ->
  P (result (ContactForm.handleAll events st) (configured n)).
Proof.
  induction events as [|e rest IH]; intros st Hst Hstep; [exact Hst|].
  rewrite handleAll_cons. apply IH; auto.
Qed.

Lemma blur_keeps n field value st :
  let st' := result (ContactForm.blurListener field value st) (configured n) in
  ContactForm.submissions st' = ContactForm.submissions st
  /\ ContactForm.contactSubmissions st' = ContactForm.contactSubmissions st.
Proof.
  cbv zeta. unfold result, ContactForm.blurListener, bind.
  rewrite validateField_run. cbn [fst ret].
  match goal with |- context [match ?o with Some _ => _ | None => _ end] =>
    destruct o end; split; reflexivity.
Qed.



(** X7. The storage always holds what a new controller needs to come back
    to the same submissions: after any sequence of events, a controller
    created on the storage as it then is (a reload of the page) has the
    same submissions. *)
Theorem submissions_survive_a_reload
    (item : StorageItem ContactFormData)
    (container container' : list ContactForm.FormErrorsChild)
    (counter counter' : option nat) (hints hints' : gmap (list N) (list N))
    (events : list ContactForm.Event) :
  let st :=
    result (ContactForm.handleAll events
              (ContactForm.new item container counter hints)) class in
  ContactForm.submissions
    (ContactForm.new (ContactForm.contactSubmissions st) container' counter' hints')
  = ContactForm.submissions st.
Proof.
  cbv zeta. unfold class.
  apply (contact_invariant 10
           (fun st =>
              ContactForm.submissions
                (ContactForm.new (ContactForm.contactSubmissions st)
                   container' counter' hints')
              = ContactForm.submissions st)).
  - destruct item; reflexivity.
  - intros e st' H. destruct e as [i | field value | field];
      cbn [ContactForm.handle].
    + unfold result. rewrite handleSubmit_run. cbn [fst].
      destruct (passesAllRules _ _); [reflexivity | exact H].
    + destruct (blur_keeps 10 field value st') as [H1 H2].
      rewrite H1, H2. exact H.
    + exact H.
Qed.

(** X18. A hint next to a field is always that field's own message: on a
    page that starts without hints, after any sequence of events every
    field that shows a hint is one of the four fields of the form and the
    hint is the text [validateField] has for that field; a field with
    another identifier never shows one. *)
Theorem hints_are_the_fields_own_messages
    (item : StorageItem ContactFormData)
    (container : list ContactForm.FormErrorsChild) (counter : option nat)
    (events : list ContactForm.Event) :
  map_Forall
    (fun field hint =>
       ContactForm.hintOf (MIN_MESSAGE_LENGTH class) field = Some hint)
    (ContactForm.fieldErrors
       (result (ContactForm.handleAll events
                  (ContactForm.new item container counter ∅)) class)).
Proof.
  unfold class. cbn [MIN_MESSAGE_LENGTH configured].
  apply (contact_invariant 10
           (fun st =>
              map_Forall
                (fun field hint => ContactForm.hintOf 10 field = Some hint)
                (ContactForm.fieldErrors st))).
  - destruct item; cbn; apply map_Forall_empty.
  - intros e st' H. destruct e as [i | field value | field];
      cbn [ContactForm.handle].
    + unfold result. rewrite handleSubmit_run. cbn [fst].
      destruct (passesAllRules _ _); cbn; apply map_Forall_empty.
    + pose proof (validateField_hint 10 field value) as Hh.
      unfold result in *. unfold ContactForm.blurListener, bind.
      destruct (ContactForm.validateField field value (configured 10))
        as [[m|] this'] eqn:E; cbn [fst ret] in *.
      * cbn. apply map_Forall_insert_2; [auto|].
        apply map_Forall_delete. exact H.
      * cbn. apply map_Forall_delete. exact H.
    + cbn. apply map_Forall_delete. exact H.
Qed.

End Submissions.

(** ** The task list *)

Section TaskList.
Import TaskManagerApp.

Lemma renderTasks_tasks f a : tasks (renderTasks f a) = tasks a.
Proof. unfold renderTasks. destruct (Nat.eqb _ 0); reflexivity. Qed.


Lemma renderTasks_storage f a : storage (renderTasks f a) = storage a.
Proof. unfold renderTasks. destruct (Nat.eqb _ 0); reflexivity. Qed.

Lemma filterTasks_all a : filterTasks (lit "all") a = tasks a.
Proof. unfold filterTasks. decide_ids. reflexivity. Qed.

Lemma toggleFirst_absent i l :
  List.find (fun t => Nat.eqb (id t) i) l = None -> toggleFirst i l = l.
Proof.
  induction l as [|t l IH]; simpl; [reflexivity|].
  destruct (Nat.eqb (id t) i); [discriminate|]. intros H. rewrite IH; auto.
Qed.

Lemma toggleTask_tasks i a : tasks (toggleTask i a) = toggleFirst i (tasks a).
Proof.
  unfold toggleTask.
  destruct (List.find _ (tasks a)) eqn:E.
  - rewrite renderTasks_tasks. reflexivity.
  - rewrite toggleFirst_absent by exact E. reflexivity.
Qed.

Lemma toggleFirst_ids i l : map id (toggleFirst i l) = map id l.
Proof.
  induction l as [|t l IH]; simpl; [reflexivity|].
  destruct (Nat.eqb (id t) i); simpl; [reflexivity | rewrite IH; reflexivity].
Qed.

Lemma new_tasks item counter :
  tasks (new item counter)
  = match item with Json parsed => parsed | _ => [] end.
Proof. unfold new. rewrite renderTasks_tasks. destruct item; reflexivity. Qed.

(** A property of the app that the constructor establishes and every
    event keeps holds after any sequence of events. *)
Lemma handleAll_invariant (P : App -> Prop) events : forall a,
  P a -> (forall e a', P a' -> P (handle e a')) -> P (handleAll events a).
Proof.
  unfold handleAll.
  induction events as [|e rest IH]; intros a Ha Hstep; simpl; [exact Ha|].
  apply IH; auto.
Qed.









End TaskList.

Section TaskOperations.
Import TaskManagerApp.

Lemma filter_sublist {A} (q : A -> bool) (l : list A) :
  List.filter q l `sublist_of` l.
Proof.
  induction l as [|x l IH]; simpl; [constructor|].
  destruct (q x); [apply sublist_skip | apply sublist_cons]; exact IH.
Qed.

Lemma filter_filter_same {A} (q : A -> bool) (l : list A) :
  List.filter q (List.filter q l) = List.filter q l.
Proof.
  induction l as [|x l IH]; simpl; [reflexivity|].
  destruct (q x) eqn:E; simpl; [rewrite E, IH|]; auto.
Qed.

Lemma filter_split_length {A} (q : A -> bool) (l : list A) :
  (length (List.filter (fun x => negb (q x)) l) + length (List.filter q l)
   = length l)%nat.
Proof.
  induction l as [|x l IH]; simpl; [reflexivity|].
  destruct (q x); simpl; lia.
Qed.

(** X10. [deleteTask] removes the tasks with the identifier and nothing
    else: no task with the identifier is left, the tasks kept are the
    others in their order, the list shrinks by the number of tasks that
    had the identifier (by nothing when there is none), the storage holds
    the new list, and deleting a second time changes nothing. *)
Theorem deleteTask_removes_the_identifier_only (i : nat) (a : App) :
  let a' := deleteTask i a in
  ~ In i (map id (tasks a'))
  /\ tasks a' `sublist_of` tasks a
  /\ (length (tasks a')
      + length (List.filter (fun t => Nat.eqb (id t) i) (tasks a))
      = length (tasks a))%nat
  /\ storage a' = Json (tasks a')
  /\ deleteTask i a' = a'.
Proof.
  cbv zeta.
  assert (Ht : tasks (deleteTask i a)
               = List.filter (fun t => negb (Nat.eqb (id t) i)) (tasks a)).
  { unfold deleteTask. rewrite renderTasks_tasks. reflexivity. }
  rewrite Ht. split; [|split; [|split; [|split]]].
  - rewrite in_map_iff. intros (t & Hid & Hin).
    apply filter_In in Hin as [_ Hne].
    rewrite <- Hid, Nat.eqb_refl in Hne. discriminate Hne.
  - apply filter_sublist.
  - apply (filter_split_length (fun t => Nat.eqb (id t) i)).
  - unfold deleteTask. rewrite renderTasks_storage. reflexivity.
  - unfold deleteTask at 1. rewrite Ht, filter_filter_same.
    unfold deleteTask, renderTasks, updateCounter, saveTasksToStorage.
    rewrite !filterTasks_all. cbn [tasks nextId storage taskList taskCounter].
    destruct (Nat.eqb (length _) 0) eqn:E;
      cbn [tasks nextId storage taskList taskCounter]; rewrite ?E; reflexivity.
Qed.

Lemma toggleFirst_twice i l : toggleFirst i (toggleFirst i l) = l.
Proof.
  induction l as [|t l IH]; simpl; [reflexivity|].
  destruct (Nat.eqb (id t) i) eqn:E; simpl; rewrite E.
  - rewrite negb_involutive. destruct t; reflexivity.
  - rewrite IH. reflexivity.
Qed.

Lemma toggleFirst_active i l :
  match List.find (fun t => Nat.eqb (id t) i) l with
  | Some t =>
      (length (List.filter isActive (toggleFirst i l))
       + (if completed t then 0 else 1)
       = length (List.filter isActive l) + (if completed t then 1 else 0))%nat
  | None => toggleFirst i l = l
  end.
Proof.
  induction l as [|t l IH]; simpl; [reflexivity|].
  destruct (Nat.eqb (id t) i) eqn:E.
  - unfold isActive. simpl. destruct (completed t); simpl; lia.
  - destruct (List.find _ l); simpl.
    + destruct (isActive t); simpl; lia.
    + rewrite IH. reflexivity.
Qed.

(** X11. [toggleTask] flips the [completed] flag of the first task with
    the identifier and touches nothing else: identifiers, titles and
    descriptions stay as they were and the number of tasks is kept; the
    number of active tasks moves by exactly one, down when the task was
    active and up when it was completed; toggling a second time restores
    the list; for an identifier no task has, the app is left exactly as it
    was, storage included. *)
Theorem toggleTask_flips_one_flag (i : nat) (a : App) :
  let a' := toggleTask i a in
  map id (tasks a') = map id (tasks a)
  /\ map title (tasks a') = map title (tasks a)
  /\ map description (tasks a') = map description (tasks a)
  /\ tasks (toggleTask i a') = tasks a
  /\ match List.find (fun t => Nat.eqb (id t) i) (tasks a) with
     | Some t =>
         (length (List.filter isActive (tasks a'))
          + (if completed t then 0 else 1)
          = length (List.filter isActive (tasks a))
            + (if completed t then 1 else 0))%nat
         /\ storage a' = Json (tasks a')
     | None => a' = a
     end.
Proof.
  cbv zeta. rewrite !toggleTask_tasks, toggleFirst_twice.
  split; [apply toggleFirst_ids|].
  split; [|split; [|split; [reflexivity|]]].
  - induction (tasks a) as [|t l IH]; simpl; [reflexivity|].
    destruct (Nat.eqb (id t) i); simpl; [reflexivity | rewrite IH; reflexivity].
  - induction (tasks a) as [|t l IH]; simpl; [reflexivity|].
    destruct (Nat.eqb (id t) i); simpl; [reflexivity | rewrite IH; reflexivity].
  - pose proof (toggleFirst_active i (tasks a)) as H.
    unfold toggleTask.
    destruct (List.find _ (tasks a)) as [t|]; [|reflexivity].
    split; [exact H|]. rewrite renderTasks_storage. reflexivity.
Qed.

Lemma filter_partition {A} (q : A -> bool) (l : list A) :
  Permutation (List.filter (fun x => negb (q x)) l ++ List.filter q l) l.
Proof.
  induction l as [|x l IH]; simpl; [constructor|].
  destruct (q x); simpl.
  - rewrite <- Permutation_middle. constructor. exact IH.
  - constructor. exact IH.
Qed.

(** X12. The filters split the list without losing or inventing tasks:
    whatever status is asked for, the result is picked in order from the
    tasks; the active and the completed tasks together are all the tasks,
    each once; the active ones are all not completed and the completed
    ones all completed. *)
Theorem filterTasks_splits_the_list (status : jsstring) (a : App) :
  filterTasks status a `sublist_of` tasks a
  /\ Permutation
       (filterTasks (lit "active") a ++ filterTasks (lit "completed") a)
       (tasks a)
  /\ (length (filterTasks (lit "active") a)
      + length (filterTasks (lit "completed") a) = length (tasks a))%nat
  /\ Forall (fun t => completed t = false) (filterTasks (lit "active") a)
  /\ Forall (fun t => completed t = true) (filterTasks (lit "completed") a).
Proof.
  split.
  { unfold filterTasks.
    destruct (decide _); [apply filter_sublist|].
    destruct (decide _); [apply filter_sublist | reflexivity]. }
  unfold filterTasks. decide_ids.
  split; [apply (filter_partition completed)|].
  split; [apply (filter_split_length completed)|].
  split; apply List.Forall_forall; intros t Ht; apply filter_In in Ht as [_ Ht].
  - unfold isActive in Ht. apply negb_true_iff in Ht. exact Ht.
  - exact Ht.
Qed.

End TaskOperations.

Section TaskSessions.
Import TaskManagerApp.

Lemma new_storage item counter : storage (new item counter) = item.
Proof. unfold new. rewrite renderTasks_storage. destruct item; reflexivity. Qed.

(** X13. The storage always holds what a new app needs to come back to
    the same tasks: after any sequence of events, an app created on the
    storage as it then is (a reload of the page) has the same tasks, in
    the same order and with the same flags. *)
Theorem tasks_survive_a_reload
    (item : StorageItem Task) (counter counter' : option (nat * nat))
    (events : list Event) :
  let a := handleAll events (new item counter) in
  tasks (new (storage a) counter') = tasks a.
Proof.
  cbv zeta.
  apply (handleAll_invariant
           (fun a => tasks (new (storage a) counter') = tasks a)).
  - rewrite new_storage, !new_tasks. reflexivity.
  - intros e a' H. rewrite new_tasks in *.
    destruct e as [t d p now | i | i | f]; cbn [handle].
    + destruct (truthy (trim t) && truthy (trim d)); [|exact H].
      unfold addTask. rewrite renderTasks_storage, renderTasks_tasks. reflexivity.
    + unfold toggleTask. destruct (List.find _ _); [|exact H].
      rewrite renderTasks_storage, renderTasks_tasks. reflexivity.
    + unfold deleteTask. rewrite renderTasks_storage, renderTasks_tasks.
      reflexivity.
    + rewrite renderTasks_storage, renderTasks_tasks. exact H.
Qed.

Lemma filterTasks_sublist status a : filterTasks status a `sublist_of` tasks a.
Proof.
  unfold filterTasks.
  destruct (decide _); [apply filter_sublist|].
  destruct (decide _); [apply filter_sublist | reflexivity].
Qed.

Lemma renderTasks_shows f a :
  taskList (renderTasks f a) = NoTasks
  \/ exists shown,
       taskList (renderTasks f a) = Items shown
       /\ shown <> []
       /\ shown `sublist_of` tasks (renderTasks f a)
       /\ taskCounter (renderTasks f a)
          = Some (length (List.filter isActive (tasks (renderTasks f a))),
                  length (tasks (renderTasks f a))).
Proof.
  unfold renderTasks.
  destruct (Nat.eqb (length (filterTasks f a)) 0) eqn:E; [left; reflexivity|].
  right. exists (filterTasks f a). cbn. repeat split.
  - intros Hnil. rewrite Hnil in E. discriminate E.
  - apply filterTasks_sublist.
Qed.

(** X14. Whenever the page shows tasks, the counter is right: after any
    sequence of events, either the list shows the "no tasks" paragraph, or
    it shows a non-empty selection of the tasks, in their order, and the
    counter holds the number of tasks that are not completed and the
    number of all tasks. *)
Theorem counter_is_right_whenever_tasks_are_shown
    (item : StorageItem Task) (counter : option (nat * nat))
    (events : list Event) :
  let a := handleAll events (new item counter) in
  taskList a = NoTasks
  \/ exists shown,
       taskList a = Items shown
       /\ shown <> []
       /\ shown `sublist_of` tasks a
       /\ taskCounter a
          = Some (length (List.filter isActive (tasks a)), length (tasks a)).
Proof.
  cbv zeta.
  apply (handleAll_invariant
           (fun a =>
              taskList a = NoTasks
              \/ exists shown,
                   taskList a = Items shown
                   /\ shown <> []
                   /\ shown `sublist_of` tasks a
                   /\ taskCounter a
                      = Some (length (List.filter isActive (tasks a)),
                              length (tasks a)))).
  - apply renderTasks_shows.
  - intros e a' H. destruct e as [t d p now | i | i | f]; cbn [handle].
    + destruct (truthy (trim t) && truthy (trim d)); [|exact H].
      apply renderTasks_shows.
    + unfold toggleTask. destruct (List.find _ _); [|exact H].
      apply renderTasks_shows.
    + apply renderTasks_shows.
    + apply renderTasks_shows.
Qed.

(** X15. The counter is not refreshed when the last tasks go: when every
    task has the identifier that [deleteTask] is given, the list becomes
    empty, the page shows the "no tasks" paragraph, and the counter keeps
    the numbers it had before the deletion. *)
Theorem deleting_the_last_tasks_keeps_the_old_counter
    (i : nat) (a : App) (H : Forall (fun t => id t = i) (tasks a)) :
  tasks (deleteTask i a) = []
  /\ taskList (deleteTask i a) = NoTasks
  /\ taskCounter (deleteTask i a) = taskCounter a.
Proof.
  assert (Hnil : List.filter (fun t => negb (Nat.eqb (id t) i)) (tasks a) = []).
  { induction H as [|t l Ht _ IH]; simpl; [reflexivity|].
    rewrite Ht, Nat.eqb_refl. exact IH. }
  unfold deleteTask. rewrite renderTasks_tasks.
  cbn [saveTasksToStorage tasks]. split; [exact Hnil|].
  unfold renderTasks. rewrite filterTasks_all.
  cbn [saveTasksToStorage tasks]. rewrite Hnil. split; reflexivity.
Qed.

(** One task is added on an empty page and deleted again: the counter
    still says one active task of one. *)
Lemma deleting_the_last_tasks_keeps_the_old_counter_witness :
  let a :=
    handle (Submit (lit "Buy milk") (lit "2 litres") (lit "low") 0)
      (new Missing None) in
  Forall (fun t => id t = 1%nat) (tasks a)
  /\ taskCounter a = Some (1%nat, 1%nat)
  /\ tasks (deleteTask 1 a) = []
  /\ taskList (deleteTask 1 a) = NoTasks
  /\ taskCounter (deleteTask 1 a) = taskCounter a.
Proof.
  cbv zeta.
  assert (H : Forall (fun t => id t = 1%nat)
                (tasks (handle (Submit (lit "Buy milk") (lit "2 litres") (lit "low") 0)
                          (new Missing None)))).
  { vm_compute. constructor; [reflexivity | constructor]. }
  split; [exact H | split; [vm_compute; reflexivity|]].
  exact (deleting_the_last_tasks_keeps_the_old_counter 1 _ H).
Defined.

Lemma trim_blank (s : jsstring) : forallb isWhiteSpace s = true -> trim s = [].
Proof.
  intros H. rewrite <- (app_nil_r s). change (s ++ []) with (s ++ [] ++ []).
  rewrite trim_padded by (assumption || reflexivity). reflexivity.
Qed.

Lemma toggleFirst_Forall (P : Task -> Prop) i l :
  (forall t, P t ->
     P (mkTask (id t) (title t) (description t) (negb (completed t))
          (createdAt t) (priority t))) ->
  Forall P l -> Forall P (toggleFirst i l).
Proof.
  intros Hflip. induction 1 as [|t l Ht Hl IH]; simpl; [constructor|].
  destruct (Nat.eqb (id t) i); constructor; auto.
Qed.

(** X16. On a page whose storage held no list, every task has a title
    and a description that are not empty and carry no whitespace at
    either end, whatever was typed and whatever events came since: the
    form adds a task only from trimmed, non-empty values. *)
Theorem tasks_have_trimmed_nonempty_texts
    (counter : option (nat * nat)) (events : list Event) :
  Forall (fun t => title t <> [] /\ trim (title t) = title t
                   /\ description t <> [] /\ trim (description t) = description t)
    (tasks (handleAll events (new Missing counter)))
  /\ Forall (fun t => title t <> [] /\ trim (title t) = title t
                      /\ description t <> [] /\ trim (description t) = description t)
       (tasks (handleAll events (new Corrupt counter))).
Proof.
  assert (Hstep : forall e a,
    Forall (fun t => title t <> [] /\ trim (title t) = title t
                     /\ description t <> [] /\ trim (description t) = description t)
      (tasks a) ->
    Forall (fun t => title t <> [] /\ trim (title t) = title t
                     /\ description t <> [] /\ trim (description t) = description t)
      (tasks (handle e a))).
  { intros e a H. destruct e as [t d p now | i | i | f]; cbn [handle].
    - destruct (truthy (trim t)) eqn:Et; [|exact H].
      destruct (truthy (trim d)) eqn:Ed; [|exact H]. cbn [andb].
      unfold addTask. rewrite renderTasks_tasks. cbn [saveTasksToStorage tasks].
      apply Forall_app. split; [exact H|].
      constructor; [|constructor]. cbn [title description].
      rewrite !trim_idempotent.
      repeat split; try reflexivity; intros E; rewrite E in *; discriminate.
    - rewrite toggleTask_tasks. apply toggleFirst_Forall; [|exact H].
      intros t0 Ht0. exact Ht0.
    - unfold deleteTask. rewrite renderTasks_tasks. cbn [saveTasksToStorage tasks].
      apply List.Forall_forall. intros t0 Ht0. apply filter_In in Ht0 as [Ht0 _].
      revert t0 Ht0. apply List.Forall_forall. exact H.
    - rewrite renderTasks_tasks. exact H. }
  split; apply (handleAll_invariant
           (fun a => Forall (fun t => title t <> [] /\ trim (title t) = title t
                                      /\ description t <> []
                                      /\ trim (description t) = description t)
                       (tasks a))); auto;
    rewrite new_tasks; constructor.
Qed.

(** X17. A submit whose title or description is empty or made of
    whitespace only does nothing at all: no task is added, nothing is
    written to the storage and the page is not rendered again. *)
Theorem submit_with_a_blank_text_does_nothing
    (taskTitle taskDesc taskPriority : jsstring) (now : N) (a : App)
    (H : forallb isWhiteSpace taskTitle = true
         \/ forallb isWhiteSpace taskDesc = true) :
  handle (Submit taskTitle taskDesc taskPriority now) a = a.
Proof.
  cbn [handle]. destruct H as [H | H]; rewrite (trim_blank _ H); cbn [truthy].
  - reflexivity.
  - rewrite andb_false_r. reflexivity.
Qed.

(** A title of three spaces. *)
Lemma submit_with_a_blank_text_does_nothing_witness :
  (forallb isWhiteSpace (lit "   ") = true
   \/ forallb isWhiteSpace (lit "2 litres") = true)
  /\ handle (Submit (lit "   ") (lit "2 litres") (lit "low") 0) (new Missing None)
     = new Missing None.
Proof.
  split; [left; reflexivity|].
  exact (submit_with_a_blank_text_does_nothing (lit "   ") (lit "2 litres")
           (lit "low") 0 (new Missing None) (or_introl eq_refl)).
Defined.

End TaskSessions.

(** ** The skills of a team member *)

Section Skills.
Import About.

Lemma split_not_nil sep s : split sep s <> [].
Proof.
  destruct s as [|c s]; simpl; [discriminate|].
  destruct (c =? sep); [discriminate|]. destruct (split sep s); discriminate.
Qed.

Lemma split_app_sep sep x r :
  Forall (fun c => c <> sep) x -> split sep (x ++ sep :: r) = x :: split sep r.
Proof.
  induction 1 as [|c x Hc _ IH]; simpl.
  - rewrite N.eqb_refl. reflexivity.
  - apply N.eqb_neq in Hc. rewrite Hc, IH. reflexivity.
Qed.

Lemma split_no_sep sep x : Forall (fun c => c <> sep) x -> split sep x = [x].
Proof.
  induction 1 as [|c x Hc _ IH]; simpl; [reflexivity|].
  apply N.eqb_neq in Hc. rewrite Hc, IH. reflexivity.
Qed.

Lemma split_pieces sep s : Forall (Forall (fun c => c <> sep)) (split sep s).
Proof.
  induction s as [|c s IH]; simpl; [repeat constructor|].
  destruct (N.eqb_spec c sep) as [->|Hne]; [constructor; [constructor | exact IH]|].
  destruct (split sep s) as [|w ws]; [repeat constructor; exact Hne|].
  inversion IH; subst. constructor; [constructor|]; assumption.
Qed.


Lemma dropWhile_Forall {A} (P : A -> Prop) (p : A -> bool) l :
  Forall P l -> Forall P (dropWhile p l).
Proof.
  induction 1 as [|x l Hx Hl IH]; simpl; [constructor|].
  destruct (p x); [exact IH | constructor; assumption].
Qed.

Lemma trim_Forall (P : N -> Prop) s : Forall P s -> Forall P (trim s).
Proof.
  intros H. unfold trim, trimEnd, trimStart.
  apply Forall_rev, dropWhile_Forall, Forall_rev, dropWhile_Forall. exact H.
Qed.








Lemma skillsOf_pieces (personSkills : jsstring) :
  Forall (fun s => s <> [] /\ trim s = s /\ Forall (fun c => c <> chr ",") s)
    (skillsOf personSkills).
Proof.
  unfold skillsOf. apply List.Forall_forall. intros s Hs.
  apply filter_In in Hs as [Hin Hlen]. apply in_map_iff in Hin as (w & <- & Hw).
  split; [|split].
  - intros E. rewrite E in Hlen. discriminate Hlen.
  - apply trim_idempotent.
  - apply trim_Forall.
    pose proof (split_pieces (chr ",") personSkills) as Hp.
    rewrite List.Forall_forall in Hp. apply Hp. exact Hw.
Qed.

(** X19. Every skill read from the skills input is a non-empty text
    without whitespace at either end and without a comma, whatever was
    typed. *)
Theorem skills_are_trimmed_nonempty_and_comma_free (personSkills : jsstring) :
  Forall (fun s => s <> [] /\ trim s = s /\ Forall (fun c => c <> chr ",") s)
    (skillsOf personSkills).
Proof. apply skillsOf_pieces. Qed.

Lemma map_trim_split_blank c s :
  isWhiteSpace c = true -> c <> chr "," ->
  map trim (split (chr ",") (c :: s)) = map trim (split (chr ",") s).
Proof.
  intros Hw Hc. cbn [split]. apply N.eqb_neq in Hc. rewrite Hc.
  pose proof (split_not_nil (chr ",") s) as Hne.
  destruct (split (chr ",") s) as [|w ws]; [contradiction|].
  cbn [map]. f_equal.
  change (c :: w) with ([c] ++ w). rewrite <- (app_nil_r w) at 1.
  apply trim_padded; [simpl; rewrite Hw|]; reflexivity.
Qed.

Lemma skillsOf_join l :
  Forall (fun s => s <> [] /\ trim s = s /\ Forall (fun c => c <> chr ",") s) l ->
  skillsOf (join (lit ", ") l) = l.
Proof.
  induction 1 as [|x l (Hne & Htrim & Hcomma) Hl IH]; [reflexivity|].
  destruct l as [|y r].
  - cbn [join]. unfold skillsOf. rewrite split_no_sep by exact Hcomma.
    cbn [map List.filter]. rewrite Htrim.
    destruct x; [contradiction | reflexivity].
  - cbn [join]. change (lit ", ") with [chr ","; chr " "].
    cbn [app]. unfold skillsOf in *.
    rewrite split_app_sep by exact Hcomma. cbn [map].
    rewrite map_trim_split_blank
      by (reflexivity || (intros E; vm_compute in E; discriminate E)).
    cbn [List.filter]. rewrite Htrim.
    destruct x; [contradiction|]. cbn [length Nat.ltb Nat.leb].
    f_equal. exact IH.
Qed.

(** X20. The skills survive being displayed and typed again: the text
    that [showSkills] prints after its [Skills: ] prefix, for skills read
    from the skills input, is read back from the input as the same
    skills. *)
Theorem skills_shown_are_read_back_unchanged (personSkills : jsstring) :
  showSkills (skillsOf personSkills)
  = lit "Skills: " ++ join (lit ", ") (skillsOf personSkills)
  /\ skillsOf (drop 8 (showSkills (skillsOf personSkills)))
     = skillsOf personSkills.
Proof.
  split; [reflexivity|]. unfold showSkills.
  change (drop 8 (lit "Skills: " ++ join (lit ", ") (skillsOf personSkills)))
    with (join (lit ", ") (skillsOf personSkills)).
  apply skillsOf_join, skillsOf_pieces.
Qed.


End Skills.

(** ** The character counter *)

Section Counter.
Import CharacterCounter.

(** X22. The colour of the counter only escalates as the text grows: for
    a fixed limit, once a text makes the counter red every text at least
    as long does, and a text that leaves it grey means every text at most
    as long leaves it grey. *)
Theorem counter_colour_only_escalates
    (maxLength : Z) (v1 v2 : jsstring) (H : (length v1 <= length v2)%nat) :
  (snd (updateCounter maxLength v1) = lit "red"
   -> snd (updateCounter maxLength v2) = lit "red")
  /\ (snd (updateCounter maxLength v2) = lit "#666"
      -> snd (updateCounter maxLength v1) = lit "#666").
Proof.
  unfold updateCounter. cbn [snd].
  repeat match goal with
         | |- context [(?a <? ?b)%Z] => destruct (Z.ltb_spec a b)
         end;
    split; intros E; try reflexivity; try lia;
    vm_compute in E; discriminate E.
Qed.

(** The empty text and a text of one character, with the limit of 500. *)
Lemma counter_colour_only_escalates_witness :
  (length (lit "") <= length (lit "a"))%nat
  /\ (snd (updateCounter 500 (lit "a")) = lit "#666"
      -> snd (updateCounter 500 (lit "")) = lit "#666").
Proof.
  assert (H : (length (lit "") <= length (lit "a"))%nat) by (simpl; lia).
  split; [exact H|].
  exact (proj2 (counter_colour_only_escalates 500 (lit "") (lit "a") H)).
Defined.

End Counter.
